(** * pyroSAR.ancillary: a shallow embedding of the ancillary routines

    The module [pyroSAR/ancillary.py] holds four functions: [groupbyTime],
    [seconds], [parse_datasetname] and [find_datasets].  Each is embedded
    below as an executable Rocq function.  Python exceptions become values
    of an error type, Python lists become [list], Python strings become
    [string], and the integer-valued floats returned by
    [timedelta.total_seconds()] become [Z]. *)

From Stdlib Require Import ZArith String Ascii Bool Lia List Sorted Permutation.
Import ListNotations.

Open Scope Z_scope.

(** ** Python exceptions and fallible computations *)

Inductive exn : Type :=
| IndexError
| ValueError
| KeyError
| TypeError.

Inductive result (A : Type) : Type :=
| Ok (a : A)
| Err (e : exn).

Arguments Ok {A} a.
Arguments Err {A} e.

Definition bind {A B : Type} (r : result A) (k : A -> result B) : result B :=
  match r with
  | Ok a => k a
  | Err e => Err e
  end.

Notation "x <- r ;; k" := (bind r (fun x => k))
  (at level 61, r at next level, right associativity).

(** A [for] loop whose body may raise: the first exception leaves the loop. *)
Fixpoint for_each {S B : Type} (body : S -> B -> result S) (l : list B) (s : S)
  : result S :=
  match l with
  | [] => Ok s
  | b :: l' => s' <- body s b ;; for_each body l' s'
  end.

(** [l[0]] and [l[-1]] on a Python list. *)
Definition py_first {B : Type} (l : list B) : result B :=
  match l with
  | [] => Err IndexError
  | x :: _ => Ok x
  end.

Definition py_last {B : Type} (l : list B) : result B :=
  match rev l with
  | [] => Err IndexError
  | x :: _ => Ok x
  end.

(** ** groupbyTime *)

Module Grouping.

(** [sorted(images, key=function)]: Python's sort is stable; the result is
    the one list that is a permutation of the input, ascending in the key,
    and keeps equal keys in input order.  A stable insertion sort computes
    it (see [sorted_perm], [sorted_ascending] and [sorted_stable]). *)
Fixpoint insert_by {A : Type} (key : A -> Z) (x : A) (l : list A) : list A :=
  match l with
  | [] => [x]
  | y :: l' => if key y <? key x then y :: insert_by key x l'
               else x :: y :: l'
  end.

Definition sorted {A : Type} (images : list A) (key : A -> Z) : list A :=
  fold_right (insert_by key) [] images.

(** The list objects of the loop live in a store: [groups] holds
    references, and [group] is a reference to the object that is also the
    last entry of [groups], so [group.append] is seen through [groups]. *)
Definition ref := nat.

Record store (A : Type) : Type := mkStore {
  objs : list (list A);
  groups : list ref;
  group : ref
}.

Arguments mkStore {A} objs groups group.
Arguments objs {A} s.
Arguments groups {A} s.
Arguments group {A} s.

Definition deref {A : Type} (h : list (list A)) (r : ref) : list A :=
  nth r h [].

Fixpoint assign {A : Type} (h : list (list A)) (r : ref) (v : list A)
  : list (list A) :=
  match h, r with
  | [], _ => []
  | _ :: h', O => v :: h'
  | x :: h', S r' => x :: assign h' r' v
  end.

Definition alloc {A : Type} (h : list (list A)) (v : list A)
  : list (list A) * ref :=
  (h ++ [v], length h).

(** [0 < abs(function(item) - function(group[-1])) <= time] *)
Definition near {A : Type} (function : A -> Z) (time : Z) (item prev : A)
  : bool :=
  (0 <? Z.abs (function item - function prev))
  && (Z.abs (function item - function prev) <=? time).

(** The body of the loop, lines 46 to 51. *)
Definition loop_body {A : Type} (function : A -> Z) (time : Z)
  (st : store A) (item : A) : result (store A) :=
  prev <- py_last (deref (objs st) (group st)) ;;
  if near function time item prev then
    Ok (mkStore
          (assign (objs st) (group st) (deref (objs st) (group st) ++ [item]))
          (groups st) (group st))
  else
    let (h, r) := alloc (objs st) [item] in
    let gs := groups st ++ [r] in
    g <- py_last gs ;;
    Ok (mkStore h gs g).

(** An entry of the returned list: [x[0] if len(x) == 1 else x]. *)
Inductive entry (A : Type) : Type :=
| Single (x : A)
| Many (xs : list A).

Arguments Single {A} x.
Arguments Many {A} xs.

Definition unwrap {A : Type} (x : list A) : entry A :=
  match x with
  | [a] => Single a
  | _ => Many x
  end.

(** The members of an entry, a bare item counting as a group of one. *)
Definition members {A : Type} (e : entry A) : list A :=
  match e with
  | Single x => [x]
  | Many xs => xs
  end.

End Grouping.

Import Grouping.

Definition groupbyTime {A : Type} (images : list A) (function : A -> Z)
  (time : Z) : result (list (entry A)) :=
  let srcfiles := sorted images function in
  first <- py_first srcfiles ;;
  let (h, r) := alloc [] [first] in
  let gs := [r] in
  g <- py_first gs ;;
  (* range(1, len(srcfiles)) visits the items after the first, in order *)
  st <- for_each (loop_body function time) (skipn 1 srcfiles) (mkStore h gs g) ;;
  Ok (map (fun x => unwrap (deref (objs st) x)) (groups st)).

(** ** Characters, and the fragment of [re] the module relies on *)

Module Re.

Definition code (c : ascii) : Z := Z.of_N (N_of_ascii c).

(** A character class is a test on one character. *)
Definition cls : Type := ascii -> bool.

Definition in_range (lo hi : ascii) : cls :=
  fun c => (code lo <=? code c) && (code c <=? code hi).

Definition is_char (x : ascii) : cls :=
  fun c => code c =? code x.

Definition either (p q : cls) : cls :=
  fun c => p c || q c.

(** [\d] (on the code points below 256 the decimal digits are 0 to 9) *)
Definition digit : cls := in_range "0" "9".

(** One alternative of a group: a fixed run of character classes. *)
Definition alternative : Type := list cls.

(** Match an alternative at the start of [s]: the text and the rest. *)
Fixpoint match_alt (a : alternative) (s : string) : option (string * string) :=
  match a with
  | [] => Some (EmptyString, s)
  | p :: a' =>
      match s with
      | EmptyString => None
      | String c s' =>
          if p c then
            match match_alt a' s' with
            | Some (t, r) => Some (String c t, r)
            | None => None
            end
          else None
      end
  end.

(** A group [(a1|a2|...)] followed by the rest of the pattern [k]: the
    alternatives are tried in order, and the engine backtracks into the
    next one when the rest of the pattern fails. *)
Fixpoint try_alts {R : Type} (alts : list alternative)
  (k : string -> string -> option R) (s : string) : option R :=
  match alts with
  | [] => None
  | a :: alts' =>
      match match_alt a s with
      | Some (t, r) =>
          match k t r with
          | Some res => Some res
          | None => try_alts alts' k s
          end
      | None => try_alts alts' k s
      end
  end.

(** [re.findall(p{n}, s)] for a class [p]: the matches from left to right,
    the search resuming after the end of each match ([n] at least 1).
    [skip] counts the characters of the last match still to be passed. *)
Fixpoint findall_from (p : cls) (n : nat) (skip : nat) (s : string)
  : list string :=
  match s with
  | EmptyString => []
  | String _ s' =>
      match skip with
      | S k => findall_from p n k s'
      | O =>
          match match_alt (repeat p n) s with
          | Some (t, _) => t :: findall_from p n (Nat.pred n) s'
          | None => findall_from p n O s'
          end
      end
  end.

Definition findall (p : cls) (n : nat) (s : string) : list string :=
  findall_from p n O s.

End Re.

(** ** The part of [datetime] the module relies on *)

Module Datetime.

Import Re.

Record datetime : Type := mkDatetime {
  year : Z;
  month : Z;
  day : Z;
  hour : Z;
  minute : Z;
  second : Z
}.

Definition is_leap (y : Z) : bool :=
  (y mod 4 =? 0) && (negb (y mod 100 =? 0) || (y mod 400 =? 0)).

Definition DAYS_IN_MONTH : list Z :=
  [-1; 31; 28; 31; 30; 31; 30; 31; 31; 30; 31; 30; 31].

Definition DAYS_BEFORE_MONTH : list Z :=
  [-1; 0; 31; 59; 90; 120; 151; 181; 212; 243; 273; 304; 334].

Definition days_before_year (y : Z) : Z :=
  (y - 1) * 365 + (y - 1) / 4 - (y - 1) / 100 + (y - 1) / 400.

Definition days_in_month (y m : Z) : Z :=
  if (m =? 2) && is_leap y then 29
  else nth (Z.to_nat m) DAYS_IN_MONTH 0.

Definition days_before_month (y m : Z) : Z :=
  nth (Z.to_nat m) DAYS_BEFORE_MONTH 0
  + (if (2 <? m) && is_leap y then 1 else 0).

Definition ymd2ord (y m d : Z) : Z :=
  days_before_year y + days_before_month y m + d.

Definition MINYEAR : Z := 1.
Definition MAXYEAR : Z := 9999.

Definition check_date_fields (y m d : Z) : bool :=
  (MINYEAR <=? y) && (y <=? MAXYEAR)
  && (1 <=? m) && (m <=? 12)
  && (1 <=? d) && (d <=? days_in_month y m).

Definition check_time_fields (h mi s : Z) : bool :=
  (0 <=? h) && (h <=? 23) && (0 <=? mi) && (mi <=? 59)
  && (0 <=? s) && (s <=? 59).

(** The constructor [datetime(year, month, day, hour, minute, second)]. *)
Definition make (y m d h mi s : Z) : result datetime :=
  if check_date_fields y m d && check_time_fields h mi s
  then Ok (mkDatetime y m d h mi s)
  else Err ValueError.

Definition toordinal (t : datetime) : Z :=
  ymd2ord (year t) (month t) (day t).

(** [timedelta]: the constructor brings the seconds into [0, 86400).
    The microseconds are zero throughout and are left out. *)
Record timedelta : Type := mkTimedelta {
  days : Z;
  secs : Z
}.

Definition make_delta (d s : Z) : timedelta :=
  mkTimedelta (d + s / 86400) (s mod 86400).

(** [a - b] on two datetimes. *)
Definition sub (a b : datetime) : timedelta :=
  let secs1 := second a + minute a * 60 + hour a * 3600 in
  let secs2 := second b + minute b * 60 + hour b * 3600 in
  make_delta (toordinal a - toordinal b) (secs1 - secs2).

(** [total_seconds()] divides the microseconds of the delta by 10**6;
    with no microseconds the float is the integer below, which
    [total_seconds_exact] shows to be below 2**53 in magnitude. *)
Definition total_seconds (t : timedelta) : Z :=
  days t * 86400 + secs t.

(** [int(text)] on a matched group: the text is made of digits, but for
    the leading blank the day group admits, which [int] strips. *)
Definition py_int (text : string) : Z :=
  fold_left (fun acc c => if digit c then 10 * acc + (code c - 48) else acc)
    (list_ascii_of_string text) 0.

(** The groups of the regular expression [_strptime] builds for the
    format [%Y%m%dT%H%M%S]; the expression is compiled with IGNORECASE,
    so the literal matches both cases. *)
Definition group_Y : list alternative := [[digit; digit; digit; digit]].
Definition group_m : list alternative :=
  [[is_char "1"; in_range "0" "2"]; [is_char "0"; in_range "1" "9"];
   [in_range "1" "9"]].
Definition group_d : list alternative :=
  [[is_char "3"; in_range "0" "1"]; [in_range "1" "2"; digit];
   [is_char "0"; in_range "1" "9"]; [in_range "1" "9"];
   [is_char " "; in_range "1" "9"]].
Definition literal_T : list alternative :=
  [[either (is_char "T") (is_char "t")]].
Definition group_H : list alternative :=
  [[is_char "2"; in_range "0" "3"]; [in_range "0" "1"; digit]; [digit]].
Definition group_M : list alternative :=
  [[in_range "0" "5"; digit]; [digit]].
Definition group_S : list alternative :=
  [[is_char "6"; in_range "0" "1"]; [in_range "0" "5"; digit]; [digit]].

(** [format_regex.match(data_string)]: the six texts and what is left. *)
Definition format_match (data_string : string)
  : option (string * string * string * string * string * string * string) :=
  try_alts group_Y (fun tY s1 =>
  try_alts group_m (fun tm s2 =>
  try_alts group_d (fun td s3 =>
  try_alts literal_T (fun _ s4 =>
  try_alts group_H (fun tH s5 =>
  try_alts group_M (fun tM s6 =>
  try_alts group_S (fun tS rest =>
    Some (tY, tm, td, tH, tM, tS, rest)) s6) s5) s4) s3) s2) s1) data_string.

(** [datetime.strptime(data_string, '%Y%m%dT%H%M%S')]: the match must
    reach the end of the string, and the constructor checks the fields. *)
Definition strptime (data_string : string) : result datetime :=
  match format_match data_string with
  | None => Err ValueError
  | Some (tY, tm, td, tH, tM, tS, rest) =>
      match rest with
      | EmptyString =>
          make (py_int tY) (py_int tm) (py_int td)
               (py_int tH) (py_int tM) (py_int tS)
      | String _ _ => Err ValueError
      end
  end.

End Datetime.

(** ** seconds *)

(** The class [[0-9T]] of the token pattern. *)
Definition token_class : Re.cls :=
  Re.either (Re.in_range "0" "9") (Re.is_char "T").

Definition seconds (filename : string) : result Z :=
  token <- py_first (Re.findall token_class 15 filename) ;;
  stamp <- Datetime.strptime token ;;
  epoch <- Datetime.make 1900 1 1 0 0 0 ;;
  Ok (Datetime.total_seconds (Datetime.sub stamp epoch)).

(** ** Python values and dictionaries *)

Module Py.

(** The values a metadata field or a constraint can hold: [None], a
    string, a list of strings, a datetime. *)
Inductive value : Type :=
| VNone
| VStr (s : string)
| VList (l : list string)
| VDate (t : Datetime.datetime).

Definition datetime_eqb (a b : Datetime.datetime) : bool :=
  (Datetime.year a =? Datetime.year b)
  && (Datetime.month a =? Datetime.month b)
  && (Datetime.day a =? Datetime.day b)
  && (Datetime.hour a =? Datetime.hour b)
  && (Datetime.minute a =? Datetime.minute b)
  && (Datetime.second a =? Datetime.second b).

Fixpoint strings_eqb (l1 l2 : list string) : bool :=
  match l1, l2 with
  | [], [] => true
  | x :: l1', y :: l2' => String.eqb x y && strings_eqb l1' l2'
  | _, _ => false
  end.

(** [a == b] *)
Definition value_eqb (a b : value) : bool :=
  match a, b with
  | VNone, VNone => true
  | VStr s1, VStr s2 => String.eqb s1 s2
  | VList l1, VList l2 => strings_eqb l1 l2
  | VDate t1, VDate t2 => datetime_eqb t1 t2
  | _, _ => false
  end.

(** A dictionary with string keys, in insertion order. *)
Definition dict : Type := list (string * value).

(** [d[key]] *)
Fixpoint get (d : dict) (key : string) : result value :=
  match d with
  | [] => Err KeyError
  | (k, v) :: d' => if String.eqb k key then Ok v else get d' key
  end.

(** [d[key] = v] *)
Fixpoint set (d : dict) (key : string) (v : value) : dict :=
  match d with
  | [] => [(key, v)]
  | (k, w) :: d' =>
      if String.eqb k key then (k, v) :: d' else (k, w) :: set d' key v
  end.

(** [s.split(sep)] for a separator of one character *)
Fixpoint split (sep : ascii) (s : string) : list string :=
  match s with
  | EmptyString => [EmptyString]
  | String c s' =>
      if Ascii.eqb c sep then EmptyString :: split sep s'
      else
        match split sep s' with
        | [] => [String c EmptyString]
        | t :: ts => String c t :: ts
        end
  end.

(** [sep.join(l)] *)
Fixpoint join (sep : ascii) (l : list string) : string :=
  match l with
  | [] => EmptyString
  | [t] => t
  | t :: l' => (t ++ String sep (join sep l'))%string
  end.

(** The value of a named group: [None] when the group took no part in
    the match. *)
Definition of_group (g : option string) : value :=
  match g with
  | None => VNone
  | Some s => VStr s
  end.

End Py.

Import Py.

(** ** parse_datasetname and find_datasets *)

(** What a match of [product_pattern] captured: one entry per named
    group, in the order the docstring of [parse_datasetname] lists the
    keys. *)
Record captures : Type := mkCaptures {
  sensor : option string;
  acquisition_mode : option string;
  orbit : option string;
  start : option string;
  extensions : option string;
  polarization : option string;
  proc_steps : option string
}.

(** [match.groupdict()] *)
Definition groupdict (c : captures) : dict :=
  [("sensor"%string, of_group (sensor c));
   ("acquisition_mode"%string, of_group (acquisition_mode c));
   ("orbit"%string, of_group (orbit c));
   ("start"%string, of_group (start c));
   ("extensions"%string, of_group (extensions c));
   ("polarization"%string, of_group (polarization c));
   ("proc_steps"%string, of_group (proc_steps c))].

(** The seven keys of a metadata mapping. *)
Definition metadata_keys : list string :=
  ["sensor"; "acquisition_mode"; "orbit"; "start"; "extensions";
   "polarization"; "proc_steps"]%string.

(** A keyword argument of [find_datasets]: a tuple asks for membership,
    any other value for equality. *)
Inductive constraint : Type :=
| Exactly (v : value)
| AnyOf (vs : list value).

Section Products.

(** [product_pattern] is defined in [_dev_config]; what the module uses of
    it is [re.match(re.compile(product_pattern), name)], a match anchored
    at the start of [name], and the groups it captured. *)
Variable product_match : string -> option captures.

(** [spatialist.ancillary.finder(directory, [product_pattern], regex=True)] *)
Variable finder : string -> list string.

Definition parse_datasetname (name : string) (parse_date : bool)
  : result (option dict) :=
  match product_match name with
  | None => Ok None
  | Some m =>
      let out := groupdict m in
      ext <- get out "extensions" ;;
      let out := if value_eqb ext (VStr EmptyString) then set out "extensions" VNone
                 else out in
      steps <- get out "proc_steps" ;;
      out <- match steps with
             | VStr s =>
                 if (0 <? Z.of_nat (String.length s))
                 then Ok (set out "proc_steps" (VList (split "_" s)))
                 else Ok (set out "proc_steps" VNone)
             | _ => Err TypeError (* len(None); a group is a string or None *)
             end ;;
      if parse_date then
        st <- get out "start" ;;
        match st with
        | VStr s =>
            t <- Datetime.strptime s ;;
            Ok (Some (set out "start" (VDate t)))
        | _ => Err TypeError (* strptime(None, ...) *)
        end
      else Ok (Some out)
  end.

(** The loop over the keyword arguments, lines 142 to 146: every turn
    assigns [match] anew. *)
Definition check_constraint (meta : option dict) (_ : bool)
  (kv : string * constraint) : result bool :=
  match meta with
  | None => Err TypeError
  | Some d =>
      field <- get d (fst kv) ;;
      match snd kv with
      | AnyOf vs => Ok (existsb (value_eqb field) vs)
      | Exactly v => Ok (value_eqb field v)
      end
  end.

Definition find_datasets (directory : string)
  (kwargs : list (string * constraint)) : result (list string) :=
  let files := finder directory in
  for_each
    (fun selection file =>
       meta <- parse_datasetname file false ;;
       matched <- for_each (check_constraint meta) kwargs true ;;
       Ok (if matched : bool then selection ++ [file] else selection))
    files [].

End Products.

(** ** A documented product name *)

(** Modelled from the spec: [product_pattern] lives in [_dev_config], which
    is not among the sources.  The docstring of [parse_datasetname] and the
    spec give one product name together with the fields the pattern
    captures in it, and say that a name such as [random.txt] does not
    match; [documented_match] is that table, used where a statement below
    is run on a concrete name. *)
Definition documented_name : string :=
  "S1A__IW___A_20150309T173017_VV_grd_mli_geo_norm_db.tif".

Definition documented_match (name : string) : option captures :=
  if String.eqb name documented_name then
    Some (mkCaptures (Some "S1A") (Some "IW") (Some "A")
            (Some "20150309T173017") (Some EmptyString) (Some "VV")
            (Some "grd_mli_geo_norm_db"))%string
  else None.

(** ** The words of the specification *)

(** Neighbours in a group, and the seam between two groups. *)
Section GroupSpec.

Context {A : Type}.
Variable function : A -> Z.
Variable time : Z.

(** [item] follows [prev] closely: more than zero, at most [time] apart. *)
Definition close (prev item : A) : Prop :=
  0 < Z.abs (function item - function prev) <= time.

(** Where [g1] ends and [g2] begins the items are not close. *)
Definition boundary (g1 g2 : list A) : Prop :=
  forall x y, py_last g1 = Ok x -> py_first g2 = Ok y -> ~ close x y.

Definition ascending : list A -> Prop :=
  StronglySorted (fun x y => function x <= function y).

End GroupSpec.

(** The proleptic Gregorian calendar and the time elapsed since
    1900-01-01T00:00:00, counted year by year and month by month. *)
Module Calendar.

Import Datetime.

Definition leap_year (y : Z) : bool :=
  if y mod 400 =? 0 then true
  else if y mod 100 =? 0 then false
  else y mod 4 =? 0.

Definition year_length (y : Z) : Z :=
  if leap_year y then 366 else 365.

Definition month_length (y m : Z) : Z :=
  if m =? 2 then (if leap_year y then 29 else 28)
  else if (m =? 4) || (m =? 6) || (m =? 9) || (m =? 11) then 30
  else 31.

(** A date-time of the calendar: years 1 to 9999. *)
Definition valid (t : datetime) : bool :=
  (1 <=? year t) && (year t <=? 9999)
  && (1 <=? month t) && (month t <=? 12)
  && (1 <=? day t) && (day t <=? month_length (year t) (month t))
  && (0 <=? hour t) && (hour t <=? 23)
  && (0 <=? minute t) && (minute t <=? 59)
  && (0 <=? second t) && (second t <=? 59).

(** [f lo + f (lo + 1) + ...], [n] terms. *)
Fixpoint sum_from (f : Z -> Z) (lo : Z) (n : nat) : Z :=
  match n with
  | O => 0
  | S n' => f lo + sum_from f (lo + 1) n'
  end.

(** Whole days from 1 January 1900 to the day of [t]: the years in
    between (counted backwards before 1900), the months of the year that
    are over, the days of the month that are over. *)
Definition days_since_epoch (t : datetime) : Z :=
  sum_from year_length 1900 (Z.to_nat (year t - 1900))
  - sum_from year_length (year t) (Z.to_nat (1900 - year t))
  + sum_from (month_length (year t)) 1 (Z.to_nat (month t - 1))
  + (day t - 1).

Definition seconds_since_epoch (t : datetime) : Z :=
  86400 * days_since_epoch t + 3600 * hour t + 60 * minute t + second t.

(** [datetime(1900, 1, 1)] *)
Definition epoch : datetime := mkDatetime 1900 1 1 0 0 0.

End Calendar.

(** Runs of characters in a file name, and the date-time token. *)
Module Stamp.

Import Re Datetime.

Definition all_in (p : cls) (t : string) : Prop :=
  Forall (fun c => p c = true) (list_ascii_of_string t).

(** [s] holds [n] characters of class [p] in a row. *)
Definition has_run (p : cls) (n : nat) (s : string) : Prop :=
  exists pre t post,
    s = (pre ++ t ++ post)%string /\ String.length t = n /\ all_in p t.

(** [t] is the leftmost such run of [s]. *)
Definition first_run (p : cls) (n : nat) (s t : string) : Prop :=
  exists pre post,
    s = (pre ++ t ++ post)%string /\ String.length t = n /\ all_in p t
    /\ forall pre' t' post',
         s = (pre' ++ t' ++ post')%string -> String.length t' = n ->
         all_in p t' -> (String.length pre <= String.length pre')%nat.

(** The shape of the token: eight digits, the separator, six digits. *)
Definition shaped (t : string) : Prop :=
  exists date clock,
    t = (date ++ "T" ++ clock)%string
    /\ String.length date = 8%nat /\ String.length clock = 6%nat
    /\ all_in digit date /\ all_in digit clock.

Definition has_shaped (s : string) : Prop :=
  exists pre t post, s = (pre ++ t ++ post)%string /\ shaped t.

(** The number a run of digits writes. *)
Definition number (ds : list ascii) : Z :=
  fold_left (fun acc c => 10 * acc + (code c - 48)) ds 0.

(** The date-time a token YYYYMMDDThhmmss encodes, if it is one of the
    calendar. *)
Definition decode (t : string) : option datetime :=
  match list_ascii_of_string t with
  | [y0; y1; y2; y3; m0; m1; d0; d1; sep; h0; h1; mi0; mi1; s0; s1] =>
      if forallb digit [y0; y1; y2; y3; m0; m1; d0; d1; h0; h1; mi0; mi1; s0; s1]
         && is_char "T" sep
      then
        let t := mkDatetime (number [y0; y1; y2; y3]) (number [m0; m1])
                   (number [d0; d1]) (number [h0; h1]) (number [mi0; mi1])
                   (number [s0; s1]) in
        if Calendar.valid t then Some t else None
      else None
  | _ => None
  end.

(** The leftmost run, by search from the left. *)
Fixpoint leftmost_run (p : cls) (n : nat) (s : string) : option string :=
  match match_alt (repeat p n) s with
  | Some (t, _) => Some t
  | None =>
      match s with
      | EmptyString => None
      | String _ s' => leftmost_run p n s'
      end
  end.

End Stamp.

(** The mapping [parse_datasetname] returns for the captures [m] whose
    processing steps are [steps], with [st] under the key start. *)
Definition metadata (m : captures) (steps : string) (st : value) : dict :=
  [("sensor"%string, of_group (sensor m));
   ("acquisition_mode"%string, of_group (acquisition_mode m));
   ("orbit"%string, of_group (orbit m));
   ("start"%string, st);
   ("extensions"%string,
     match extensions m with
     | Some e => if String.eqb e EmptyString then VNone else VStr e
     | None => VNone
     end);
   ("polarization"%string, of_group (polarization m));
   ("proc_steps"%string,
     if String.eqb steps EmptyString then VNone else VList (split "_" steps))].

(** ** Definitions used by the proofs *)

(** The invariant of the loop of [groupbyTime]. *)
Section ScanInvariant.

Context {A : Type}.
Variable function : A -> Z.
Variable time : Z.

(** The references in [groups] are the objects in allocation order, and
    [group] is the last of them. *)
Definition tidy (st : store A) : Prop :=
  groups st = seq 0 (List.length (objs st))
  /\ S (group st) = List.length (objs st).

Record well_grouped (gs : list (list A)) (processed : list A) : Prop := {
  wg_concat : concat gs = processed;
  wg_nonempty : Forall (fun g => g <> []) gs;
  wg_within : Forall (Sorted (close function time)) gs;
  wg_between : Sorted (boundary function time) gs
}.

Definition scan_inv (st : store A) (processed : list A) : Prop :=
  tidy st /\ objs st <> [] /\ well_grouped (objs st) processed.

End ScanInvariant.

(** The texts a group of the [strptime] expression can match. *)
Module FormatGroups.

Import Re.

(** The texts of two characters a group accepts. *)
Definition two_m (a b : ascii) : bool :=
  (is_char "1" a && in_range "0" "2" b) || (is_char "0" a && in_range "1" "9" b).
Definition two_d (a b : ascii) : bool :=
  (is_char "3" a && in_range "0" "1" b) || (in_range "1" "2" a && digit b)
  || (is_char "0" a && in_range "1" "9" b)
  || (is_char " " a && in_range "1" "9" b).
Definition two_H (a b : ascii) : bool :=
  (is_char "2" a && in_range "0" "3" b) || (in_range "0" "1" a && digit b).
Definition two_M (a b : ascii) : bool := in_range "0" "5" a && digit b.
Definition two_S (a b : ascii) : bool :=
  (is_char "6" a && in_range "0" "1" b) || (in_range "0" "5" a && digit b).

Definition text2 (a b : ascii) : string := String a (String b EmptyString).
Definition text1 (a : ascii) : string := String a EmptyString.

(** What a group can have matched: two characters it accepts, or one. *)
Definition group_cases {R : Type} (two : ascii -> ascii -> bool)
  (k : string -> string -> option R) (s : string) (r : R) : Prop :=
  (exists a b rest, s = String a (String b rest) /\ two a b = true
                    /\ k (text2 a b) rest = Some r)
  \/ (exists a rest, s = String a rest /\ k (text1 a) rest = Some r).

End FormatGroups.

(** ** Further words of the specification *)

(** The sorted items cut into groups from the right: an item joins the
    group of its successor when the successor is close to it. *)
Fixpoint regroup {A : Type} (function : A -> Z) (time : Z) (l : list A)
  : list (list A) :=
  match l with
  | [] => []
  | x :: l' =>
      match l' with
      | [] => [[x]]
      | y :: _ =>
          match regroup function time l' with
          | g :: gs => if near function time y x then (x :: g) :: gs
                       else [x] :: g :: gs
          | [] => [[x]]
          end
      end
  end.

(** The number of neighbours in [l] that are not close. *)
Fixpoint breaks {A : Type} (function : A -> Z) (time : Z) (l : list A) : nat :=
  match l with
  | [] => O
  | x :: l' =>
      match l' with
      | [] => O
      | y :: _ => ((if near function time y x then 0 else 1)
                   + breaks function time l')%nat
      end
  end.

(** The order of the dictionary on lists of numbers. *)
Fixpoint lex_lt (a b : list Z) : Prop :=
  match a, b with
  | x :: a', y :: b' => x < y \/ (x = y /\ lex_lt a' b')
  | _, _ => False
  end.

(** [a] is before [b] on the calendar. *)
Definition earlier (a b : Datetime.datetime) : Prop :=
  lex_lt [Datetime.year a; Datetime.month a; Datetime.day a;
          Datetime.hour a; Datetime.minute a; Datetime.second a]
         [Datetime.year b; Datetime.month b; Datetime.day b;
          Datetime.hour b; Datetime.minute b; Datetime.second b].

(** Whether a field value meets a constraint: equality, or membership
    in a tuple. *)
Definition meets (v : value) (c : constraint) : bool :=
  match c with
  | Exactly x => value_eqb v x
  | AnyOf vs => existsb (value_eqb v) vs
  end.

Section Selection.

Variable product_match : string -> option captures.

(** Whether the product [file] parses and its field [key] meets [c]. *)
Definition selects (key : string) (c : constraint) (file : string) : bool :=
  match parse_datasetname product_match file false with
  | Ok (Some out) =>
      match get out key with
      | Ok v => meets v c
      | Err _ => false
      end
  | _ => false
  end.

(** What the loop over the files of [find_datasets] does with one file,
    when it does not raise. *)
Definition kept (kwargs : list (string * constraint)) (file : string) : bool :=
  match parse_datasetname product_match file false with
  | Ok meta =>
      match for_each (check_constraint meta) kwargs true with
      | Ok b => b
      | Err _ => false
      end
  | Err _ => false
  end.

End Selection.

(** * Part two: the proofs *)

(** * Facts about the error monad and list access *)

Lemma py_last_snoc {B : Type} (l : list B) (x : B) : py_last (l ++ [x]) = Ok x.
Proof. unfold py_last. rewrite rev_app_distr. reflexivity. Qed.

Lemma py_last_cons {B : Type} (x y : B) (l : list B) :
  py_last (x :: y :: l) = py_last (y :: l).
Proof.
  destruct (exists_last (l := y :: l)) as [l' [z Hz]]; [discriminate|].
  rewrite Hz. change (x :: l' ++ [z]) with ((x :: l') ++ [z]).
  now rewrite !py_last_snoc.
Qed.

Lemma py_last_nonempty {B : Type} (l : list B) :
  l <> [] -> exists x, py_last l = Ok x.
Proof.
  intros H. destruct (exists_last H) as [l' [z Hz]]. subst l.
  exists z. apply py_last_snoc.
Qed.

Lemma for_each_invariant {S B : Type} (body : S -> B -> result S)
  (P : S -> list B -> Prop) :
  (forall s p b, P s p -> exists s', body s b = Ok s' /\ P s' (p ++ [b])) ->
  forall l s p, P s p -> exists s', for_each body l s = Ok s' /\ P s' (p ++ l).
Proof.
  intros Hbody l. induction l as [|b l IH]; intros s p HP; simpl.
  - exists s. rewrite app_nil_r. auto.
  - destruct (Hbody s p b HP) as [s1 [E1 P1]]. rewrite E1. simpl.
    destruct (IH s1 (p ++ [b]) P1) as [s2 [E2 P2]].
    exists s2. split; [exact E2|]. now rewrite <- app_assoc in P2.
Qed.

(** * The sort *)

Section SortFacts.

Context {A : Type}.
Variable key : A -> Z.

Lemma insert_by_perm (x : A) (l : list A) :
  Permutation (x :: l) (insert_by key x l).
Proof.
  induction l as [|y l IH]; simpl; [reflexivity|].
  destruct (key y <? key x).
  - rewrite perm_swap. now apply perm_skip.
  - reflexivity.
Qed.

Lemma sorted_perm (l : list A) : Permutation l (sorted l key).
Proof.
  induction l as [|x l IH]; simpl; [constructor|].
  rewrite <- insert_by_perm. now apply perm_skip.
Qed.

Lemma insert_by_ascending (x : A) (l : list A) :
  ascending key l -> ascending key (insert_by key x l).
Proof.
  unfold ascending.
  induction l as [|y l IH]; intros Hl; simpl.
  - repeat constructor.
  - apply StronglySorted_inv in Hl as [Hl Hy].
    destruct (key y <? key x) eqn:E.
    + apply Z.ltb_lt in E. constructor; [now apply IH|].
      rewrite <- insert_by_perm. constructor; [lia | exact Hy].
    + apply Z.ltb_ge in E. constructor.
      * now constructor.
      * constructor; [exact E|].
        eapply Forall_impl; [|exact Hy]. simpl. intros; lia.
Qed.

Lemma sorted_ascending (l : list A) : ascending key (sorted l key).
Proof.
  induction l as [|x l IH]; simpl; [constructor|].
  now apply insert_by_ascending.
Qed.

(** Equal keys keep their input order. *)
Lemma insert_by_stable (k : Z) (x : A) (l : list A) :
  filter (fun a => key a =? k) (insert_by key x l)
  = filter (fun a => key a =? k) (x :: l).
Proof.
  induction l as [|y l IH]; [reflexivity|].
  simpl insert_by. destruct (key y <? key x) eqn:E; [|reflexivity].
  apply Z.ltb_lt in E. simpl in *. rewrite IH.
  destruct (key x =? k) eqn:Ex; [|reflexivity].
  apply Z.eqb_eq in Ex.
  destruct (key y =? k) eqn:Ey; [|reflexivity].
  apply Z.eqb_eq in Ey. lia.
Qed.

Lemma sorted_stable (k : Z) (l : list A) :
  filter (fun a => key a =? k) (sorted l key)
  = filter (fun a => key a =? k) l.
Proof.
  induction l as [|x l IH]; [reflexivity|].
  simpl sorted. fold (sorted l key). rewrite insert_by_stable.
  simpl. now rewrite IH.
Qed.

Lemma insert_by_comm (x y : A) (l : list A) :
  key x <> key y ->
  insert_by key x (insert_by key y l) = insert_by key y (insert_by key x l).
Proof.
  intros Hxy. induction l as [|z l IH]; simpl.
  - destruct (key y <? key x) eqn:E1, (key x <? key y) eqn:E2;
      try reflexivity; rewrite ?Z.ltb_lt, ?Z.ltb_ge in *; lia.
  - destruct (key z <? key y) eqn:Ezy, (key z <? key x) eqn:Ezx; simpl;
      rewrite ?Ezy, ?Ezx; try (now rewrite IH);
      destruct (key y <? key x) eqn:E1, (key x <? key y) eqn:E2;
      simpl; rewrite ?Ezy, ?Ezx; try reflexivity;
      rewrite ?Z.ltb_lt, ?Z.ltb_ge in *; lia.
Qed.

Lemma sorted_respects_perm (l l' : list A) :
  Permutation l l' ->
  (forall x y, In x l -> In y l -> key x = key y -> x = y) ->
  sorted l key = sorted l' key.
Proof.
  intros HP. induction HP as [|x l l' HP IH|x y l|l l' l'' HP1 IH1 HP2 IH2];
    intros Hinj.
  - reflexivity.
  - simpl. f_equal. apply IH. intros; apply Hinj; simpl; auto.
  - simpl. fold (sorted l key).
    destruct (Z.eq_dec (key x) (key y)) as [E|E].
    + assert (y = x) by (apply Hinj; simpl; auto). now subst.
    + now apply insert_by_comm; auto.
  - rewrite IH1 by exact Hinj. apply IH2.
    intros x y Hx Hy.
    apply Hinj; apply (Permutation_in _ (Permutation_sym HP1)); assumption.
Qed.

End SortFacts.

(** * Chains: [Sorted R] read as a relation between neighbours *)

Section Chains.

Context {B : Type}.
Variable R : B -> B -> Prop.

Lemma chain_snoc (l : list B) (x : B) :
  Sorted R l -> (forall y, py_last l = Ok y -> R y x) -> Sorted R (l ++ [x]).
Proof.
  induction l as [|a l IH]; intros Hl Hx; simpl.
  - repeat constructor.
  - apply Sorted_inv in Hl as [Hl Ha]. constructor.
    + apply IH; [exact Hl|]. intros y Hy. apply Hx.
      destruct l as [|b l]; [discriminate|]. now rewrite py_last_cons.
    + destruct l as [|b l]; simpl.
      * constructor. apply Hx. reflexivity.
      * constructor. now inversion Ha.
Qed.

Lemma chain_replace_last (l : list B) (a b : B) :
  Sorted R (l ++ [a]) -> (forall z, R z a -> R z b) -> Sorted R (l ++ [b]).
Proof.
  induction l as [|c l IH]; intros Hl Hab; simpl in *.
  - repeat constructor.
  - apply Sorted_inv in Hl as [Hl Hc]. constructor; [now apply IH|].
    destruct l as [|d l]; simpl in *; constructor; inversion Hc; subst; auto.
Qed.

End Chains.

(** * The store of the loop *)

Section Store.

Context {A : Type}.

Lemma deref_last (front : list (list A)) (cur : list A) :
  deref (front ++ [cur]) (List.length front) = cur.
Proof. unfold deref. now rewrite nth_middle. Qed.

Lemma assign_last (front : list (list A)) (cur v : list A) :
  assign (front ++ [cur]) (List.length front) v = front ++ [v].
Proof. induction front as [|g front IH]; simpl; [reflexivity|]. now rewrite IH. Qed.

Lemma deref_all (h : list (list A)) :
  map (deref h) (seq 0 (List.length h)) = h.
Proof.
  induction h as [|g h IH] using rev_ind; [reflexivity|].
  rewrite length_app, seq_app, map_app. simpl.
  rewrite deref_last. f_equal.
  transitivity (map (deref h) (seq 0 (List.length h))); [|exact IH].
  apply map_ext_in. intros r Hr.
  apply in_seq in Hr. unfold deref. apply app_nth1. lia.
Qed.

End Store.

Section Scan.

Context {A : Type}.
Variable function : A -> Z.
Variable time : Z.

Lemma near_close (item prev : A) :
  near function time item prev = true <-> close function time prev item.
Proof.
  unfold near, close. rewrite andb_true_iff, Z.ltb_lt, Z.leb_le. tauto.
Qed.

Lemma loop_body_inv (st : store A) (processed : list A) (item : A) :
  scan_inv function time st processed ->
  exists st', loop_body function time st item = Ok st'
              /\ scan_inv function time st' (processed ++ [item]).
Proof.
  intros [[Hgs Hg] [Hne [Hc Hn Hw Hb]]].
  destruct st as [h gs g]; simpl in *.
  destruct (exists_last Hne) as [front [cur Hh]]. subst h.
  rewrite length_app in Hg; simpl in Hg.
  assert (g = List.length front) by lia. subst g. clear Hg.
  unfold loop_body; simpl. rewrite deref_last.
  apply Forall_app in Hn as [Hn1 Hn2]. apply Forall_inv in Hn2.
  apply Forall_app in Hw as [Hw1 Hw2]. apply Forall_inv in Hw2.
  destruct (py_last_nonempty cur Hn2) as [prev Hprev].
  rewrite Hprev; simpl.
  destruct (near function time item prev) eqn:Enear.
  - apply near_close in Enear.
    eexists; split; [reflexivity|]. rewrite assign_last.
    split; [|split]; simpl.
    + split; simpl; rewrite !length_app in *; simpl; [exact Hgs | lia].
    + now destruct front.
    + split.
      * rewrite concat_app in *. simpl in *. rewrite app_nil_r in *.
        subst processed. now rewrite app_assoc.
      * apply Forall_app; split; [exact Hn1|]. constructor; [|constructor].
        now destruct cur.
      * apply Forall_app; split; [exact Hw1|]. constructor; [|constructor].
        apply chain_snoc; [exact Hw2|].
        intros y Hy. rewrite Hprev in Hy. now inversion Hy; subst.
      * eapply chain_replace_last; [exact Hb|].
        intros z Hz x y Hx Hy. apply Hz; [exact Hx|].
        destruct cur; [contradiction|exact Hy].
  - assert (Hfar : ~ close function time prev item).
    { intros H. apply near_close in H. congruence. }
    rewrite py_last_snoc; simpl.
    eexists; split; [reflexivity|].
    split; [|split]; simpl.
    + split; simpl.
      * rewrite Hgs. rewrite (length_app (front ++ [cur])). simpl.
        now rewrite seq_app.
      * rewrite (length_app (front ++ [cur])). simpl. lia.
    + now destruct (front ++ [cur]).
    + split.
      * rewrite concat_app. simpl. now rewrite Hc.
      * apply Forall_app; split; [|repeat constructor; discriminate].
        apply Forall_app; split; [exact Hn1 | now constructor].
      * apply Forall_app; split; [|repeat constructor].
        apply Forall_app; split; [exact Hw1 | now constructor].
      * apply chain_snoc; [exact Hb|].
        intros g Hg. rewrite py_last_snoc in Hg. inversion Hg; subst g.
        intros x y Hx Hy. rewrite Hprev in Hx. inversion Hx; subst x.
        simpl in Hy. now inversion Hy; subst y.
Qed.

(** The groups the function builds, before the singletons are unwrapped. *)
Lemma groupbyTime_groups (images : list A) :
  images <> [] ->
  exists gs, groupbyTime images function time = Ok (map unwrap gs)
             /\ gs <> []
             /\ well_grouped function time gs (sorted images function).
Proof.
  intros Hne. unfold groupbyTime.
  destruct (sorted images function) as [|first rest] eqn:Es.
  - exfalso. apply Hne. apply Permutation_nil.
    apply Permutation_sym. rewrite <- Es. apply sorted_perm.
  - simpl.
    destruct (for_each_invariant (loop_body function time) (scan_inv function time)
                (fun s p b H => loop_body_inv s p b H) rest
                (mkStore [[first]] [0%nat] 0%nat) [first]) as [st [E Hinv]].
    { split; [split; reflexivity|]. split; [discriminate|].
      split; simpl; repeat constructor; discriminate. }
    unfold ref in *. rewrite E. simpl. destruct Hinv as [[Hgs _] [Hne' Hwg]].
    exists (objs st). split; [|split; assumption].
    rewrite Hgs. rewrite <- map_map. now rewrite deref_all.
Qed.

End Scan.

Section GroupFacts.

Context {A : Type}.
Variable function : A -> Z.
Variable time : Z.

Lemma members_unwrap (g : list A) : members (unwrap g) = g.
Proof. destruct g as [|x [|y g]]; reflexivity. Qed.

Lemma concat_members (gs : list (list A)) :
  concat (map members (map unwrap gs)) = concat gs.
Proof.
  rewrite map_map. f_equal. rewrite <- (map_id gs) at 2.
  apply map_ext. exact members_unwrap.
Qed.

Lemma unwrap_by_length (g : list A) :
  g <> [] ->
  (exists x, g = [x] /\ unwrap g = Single x)
  \/ ((1 < List.length g)%nat /\ unwrap g = Many g).
Proof.
  destruct g as [|x [|y g]]; intros H; [contradiction| |].
  - left. now exists x.
  - right. simpl. split; [lia | reflexivity].
Qed.

Lemma ascending_split (l1 l2 : list A) :
  ascending function (l1 ++ l2) ->
  ascending function l1 /\ ascending function l2.
Proof.
  unfold ascending. induction l1 as [|x l1 IH]; simpl; intros H.
  - split; [constructor | exact H].
  - apply StronglySorted_inv in H as [H Hx].
    destruct (IH H) as [H1 H2]. split; [|exact H2].
    constructor; [exact H1|]. now apply Forall_app in Hx as [Hx _].
Qed.

(** In an ascending chain of close neighbours the times go strictly up. *)
Lemma close_chain_increasing (g : list A) :
  ascending function g -> Sorted (close function time) g ->
  StronglySorted (fun x y => function x < function y) g.
Proof.
  unfold ascending.
  induction g as [|x g IH]; intros Hasc Hch; [constructor|].
  apply StronglySorted_inv in Hasc as [Hasc Hx].
  apply Sorted_inv in Hch as [Hch Hhd].
  specialize (IH Hasc Hch). constructor; [exact IH|].
  destruct g as [|y g]; [constructor|].
  apply HdRel_inv in Hhd. apply Forall_inv in Hx. unfold close in Hhd.
  assert (Hxy : function x < function y) by lia.
  constructor; [exact Hxy|].
  apply StronglySorted_inv in IH as [_ Hy].
  eapply Forall_impl; [|exact Hy]. simpl. intros; lia.
Qed.

Lemma increasing_nodup (g : list A) :
  StronglySorted (fun x y => function x < function y) g ->
  NoDup (map function g).
Proof.
  induction g as [|x g IH]; intros H; simpl; [constructor|].
  apply StronglySorted_inv in H as [H Hx]. constructor; [|now apply IH].
  intros Hin. apply in_map_iff in Hin as [y [Ey Hy]].
  rewrite Forall_forall in Hx. specialize (Hx y Hy). lia.
Qed.

Lemma groups_distinct_times (gs : list (list A)) :
  ascending function (concat gs) ->
  Forall (Sorted (close function time)) gs ->
  Forall (fun g => NoDup (map function g)) gs.
Proof.
  induction gs as [|g gs IH]; intros Hasc Hw; [constructor|].
  simpl in Hasc. apply ascending_split in Hasc as [Hg Hrest].
  apply Forall_cons_iff in Hw as [Hwg Hw].
  constructor; [|now apply IH].
  apply increasing_nodup. now apply close_chain_increasing.
Qed.

End GroupFacts.

(** * The grouping is determined by its two rules *)

Section Unique.

Context {A : Type}.
Variable function : A -> Z.
Variable time : Z.

(** A seam in front of the first item of what follows. *)
Lemma seam_head (g h : list A) (gs : list (list A)) (x y : A) (rest : list A) :
  Sorted (boundary function time) (g :: gs) ->
  Forall (fun g => g <> []) gs ->
  py_last g = Ok x ->
  concat gs = y :: rest ->
  ~ close function time x y.
Proof.
  intros Hs Hne Hx Hc.
  destruct gs as [|h' gs]; [discriminate|].
  apply Forall_inv in Hne.
  destruct h' as [|y' h']; [contradiction|].
  simpl in Hc. inversion Hc; subst y'.
  apply Sorted_inv in Hs as [_ Hhd]. apply HdRel_inv in Hhd.
  apply Hhd; [exact Hx | reflexivity].
Qed.

(** The first group is determined by the items and the two rules. *)
Lemma first_group_unique (g : list A) :
  forall (g' : list A) (gs gs' : list (list A)),
    g <> [] -> g' <> [] ->
    Sorted (close function time) g -> Sorted (close function time) g' ->
    Sorted (boundary function time) (g :: gs) ->
    Sorted (boundary function time) (g' :: gs') ->
    Forall (fun g => g <> []) gs -> Forall (fun g => g <> []) gs' ->
    g ++ concat gs = g' ++ concat gs' ->
    g = g'.
Proof.
  induction g as [|x g IH]; intros g' gs gs' Hg Hg' Hc Hc' Hb Hb' Hn Hn' E;
    [contradiction|].
  destruct g' as [|x' g']; [contradiction|].
  simpl in E. inversion E as [[Ex E']]. subst x'. f_equal.
  destruct g as [|y g], g' as [|y' g']; simpl in E'.
  - reflexivity.
  - exfalso. apply Sorted_inv in Hc' as [_ Hhd]. apply HdRel_inv in Hhd.
    exact (seam_head [x] [] gs x y' (g' ++ concat gs') Hb Hn eq_refl E' Hhd).
  - exfalso. apply Sorted_inv in Hc as [_ Hhd]. apply HdRel_inv in Hhd.
    exact (seam_head [x] [] gs' x y (g ++ concat gs) Hb' Hn' eq_refl
             (eq_sym E') Hhd).
  - apply (IH (y' :: g') gs gs'); try discriminate; try assumption.
    + now apply Sorted_inv in Hc as [Hc _].
    + now apply Sorted_inv in Hc' as [Hc' _].
    + apply Sorted_inv in Hb as [Hb Hhd]. constructor; [exact Hb|].
      destruct gs as [|h gs]; constructor. apply HdRel_inv in Hhd.
      intros a b Ha Hb0. apply Hhd; [|exact Hb0]. now rewrite py_last_cons.
    + apply Sorted_inv in Hb' as [Hb' Hhd]. constructor; [exact Hb'|].
      destruct gs' as [|h gs']; constructor. apply HdRel_inv in Hhd.
      intros a b Ha Hb0. apply Hhd; [|exact Hb0]. now rewrite py_last_cons.
Qed.

(** The two rules leave one way to cut the items into groups. *)
Lemma well_grouped_unique (gs : list (list A)) :
  forall (gs' : list (list A)) (l : list A),
    well_grouped function time gs l -> well_grouped function time gs' l ->
    gs = gs'.
Proof.
  induction gs as [|g gs IH]; intros gs' l [Hc Hn Hw Hb] [Hc' Hn' Hw' Hb'].
  - simpl in Hc. rewrite <- Hc in Hc'. destruct gs' as [|g' gs']; [reflexivity|].
    apply Forall_inv in Hn'. simpl in Hc'.
    destruct g'; [contradiction|discriminate].
  - destruct gs' as [|g' gs'].
    + simpl in Hc'. rewrite <- Hc' in Hc. apply Forall_inv in Hn.
      simpl in Hc. destruct g; [contradiction|discriminate].
    + apply Forall_cons_iff in Hn as [Hg Hn].
      apply Forall_cons_iff in Hn' as [Hg' Hn'].
      apply Forall_cons_iff in Hw as [Hcg Hw].
      apply Forall_cons_iff in Hw' as [Hcg' Hw'].
      simpl in Hc, Hc'.
      assert (Eg : g = g').
      { apply (first_group_unique g g' gs gs'); try assumption. congruence. }
      subst g'. f_equal.
      apply (IH gs' (concat gs)).
      * split; [reflexivity | assumption | assumption |].
        now apply Sorted_inv in Hb as [Hb _].
      * split; [|assumption | assumption |].
        -- rewrite <- Hc' in Hc. now apply app_inv_head in Hc.
        -- now apply Sorted_inv in Hb' as [Hb' _].
Qed.

End Unique.



(** * The calendar *)

Module CalendarFacts.

Import Datetime Calendar.

Lemma is_leap_leap_year (y : Z) : is_leap y = leap_year y.
Proof.
  unfold is_leap, leap_year.
  destruct (y mod 400 =? 0) eqn:E400, (y mod 100 =? 0) eqn:E100,
           (y mod 4 =? 0) eqn:E4; try reflexivity;
    rewrite ?Z.eqb_eq, ?Z.eqb_neq in *; exfalso;
    Z.div_mod_to_equations; lia.
Qed.

Lemma days_in_month_length (y m : Z) :
  1 <= m <= 12 -> days_in_month y m = month_length y m.
Proof.
  intros Hm. unfold days_in_month, month_length.
  rewrite is_leap_leap_year.
  assert (H : m = 1 \/ m = 2 \/ m = 3 \/ m = 4 \/ m = 5 \/ m = 6 \/ m = 7
              \/ m = 8 \/ m = 9 \/ m = 10 \/ m = 11 \/ m = 12) by lia.
  repeat (destruct H as [H|H]; [subst m; simpl; destruct (leap_year y); reflexivity|]).
  subst m; reflexivity.
Qed.

Lemma check_fields_valid (y m d h mi s : Z) :
  check_date_fields y m d && check_time_fields h mi s
  = valid (mkDatetime y m d h mi s).
Proof.
  unfold check_date_fields, check_time_fields, valid, MINYEAR, MAXYEAR; simpl.
  destruct ((1 <=? m) && (m <=? 12)) eqn:Em.
  - apply andb_true_iff in Em as [E1 E2].
    rewrite days_in_month_length by lia.
    now rewrite !andb_assoc.
  - apply andb_false_iff in Em.
    destruct Em as [E|E]; rewrite E;
      rewrite ?andb_false_r, ?andb_false_l; reflexivity.
Qed.

Lemma days_before_year_step (y : Z) :
  days_before_year (y + 1) = days_before_year y + year_length y.
Proof.
  unfold days_before_year, year_length, leap_year.
  replace (y + 1 - 1) with y by lia.
  destruct (y mod 400 =? 0) eqn:E400; [|destruct (y mod 100 =? 0) eqn:E100;
    [|destruct (y mod 4 =? 0) eqn:E4]];
    rewrite ?Z.eqb_eq, ?Z.eqb_neq in *; Z.div_mod_to_equations; lia.
Qed.

Lemma sum_years (lo : Z) (n : nat) :
  sum_from year_length lo n
  = days_before_year (lo + Z.of_nat n) - days_before_year lo.
Proof.
  revert lo. induction n as [|n IH]; intros lo.
  - simpl. replace (lo + 0) with lo by lia. lia.
  - cbn [sum_from]. rewrite IH, days_before_year_step.
    replace (lo + Z.of_nat (S n)) with (lo + 1 + Z.of_nat n) by lia. lia.
Qed.

Lemma days_before_month_sum (y m : Z) :
  1 <= m <= 12 ->
  days_before_month y m = sum_from (month_length y) 1 (Z.to_nat (m - 1)).
Proof.
  intros Hm. unfold days_before_month. rewrite is_leap_leap_year.
  assert (H : m = 1 \/ m = 2 \/ m = 3 \/ m = 4 \/ m = 5 \/ m = 6 \/ m = 7
              \/ m = 8 \/ m = 9 \/ m = 10 \/ m = 11 \/ m = 12) by lia.
  unfold month_length.
  repeat (destruct H as [H|H];
          [subst m; simpl; destruct (leap_year y); reflexivity|]).
  subst m; simpl; destruct (leap_year y); reflexivity.
Qed.

Lemma total_seconds_delta (d s : Z) :
  total_seconds (make_delta d s) = d * 86400 + s.
Proof.
  unfold total_seconds, make_delta; simpl.
  pose proof (Z.div_mod s 86400 ltac:(lia)). lia.
Qed.

Lemma valid_fields (t : datetime) :
  valid t = true ->
  1 <= year t <= 9999 /\ 1 <= month t <= 12
  /\ 1 <= day t <= month_length (year t) (month t)
  /\ 0 <= hour t <= 23 /\ 0 <= minute t <= 59 /\ 0 <= second t <= 59.
Proof.
  unfold valid. rewrite !andb_true_iff, !Z.leb_le. tauto.
Qed.

(** The difference of the ordinals counts the days of the calendar. *)
Lemma ordinal_days (t : datetime) :
  valid t = true ->
  toordinal t - toordinal epoch = days_since_epoch t.
Proof.
  intros Hv. apply valid_fields in Hv as (Hy & Hm & Hd & _).
  unfold toordinal, ymd2ord, days_since_epoch, epoch. cbn [year month day].
  rewrite (days_before_month_sum (year t) (month t) Hm).
  rewrite !sum_years.
  change (days_before_month 1900 1) with 0.
  destruct (Z_le_gt_dec 1900 (year t)) as [Hge|Hlt].
  - replace (Z.to_nat (1900 - year t)) with 0%nat by lia.
    rewrite Z2Nat.id by lia.
    replace (1900 + (year t - 1900)) with (year t) by lia.
    replace (year t + Z.of_nat 0) with (year t) by lia.
    change (days_before_year 1900) with 693595. lia.
  - replace (Z.to_nat (year t - 1900)) with 0%nat by lia.
    rewrite Z2Nat.id by lia.
    replace (year t + (1900 - year t)) with 1900 by lia.
    replace (1900 + Z.of_nat 0) with 1900 by lia.
    change (days_before_year 1900) with 693595. lia.
Qed.

(** [t - datetime(1900, 1, 1)] in seconds is the time elapsed since the
    epoch. *)
Lemma total_seconds_elapsed (t : datetime) :
  valid t = true ->
  total_seconds (sub t epoch) = seconds_since_epoch t.
Proof.
  intros Hv. unfold sub. rewrite total_seconds_delta.
  rewrite (ordinal_days t Hv). unfold seconds_since_epoch, epoch.
  cbn [hour minute second]. lia.
Qed.

Lemma days_before_year_bounds (y : Z) :
  1 <= y <= 9999 -> 0 <= days_before_year y <= 3652059.
Proof.
  intros Hy. unfold days_before_year. Z.div_mod_to_equations. lia.
Qed.

Lemma month_length_bounds (y m : Z) : 28 <= month_length y m <= 31.
Proof.
  unfold month_length.
  destruct (m =? 2); [destruct (leap_year y); lia|].
  destruct ((m =? 4) || (m =? 6) || (m =? 9) || (m =? 11)); lia.
Qed.

Lemma days_before_month_bounds (y m : Z) :
  1 <= m <= 12 -> 0 <= days_before_month y m <= 335.
Proof.
  intros Hm. unfold days_before_month.
  assert (H : m = 1 \/ m = 2 \/ m = 3 \/ m = 4 \/ m = 5 \/ m = 6 \/ m = 7
              \/ m = 8 \/ m = 9 \/ m = 10 \/ m = 11 \/ m = 12) by lia.
  repeat (destruct H as [H|H];
          [subst m; simpl; destruct (is_leap y); simpl; lia|]).
  subst m; simpl; destruct (is_leap y); simpl; lia.
Qed.

(** The value is an integer below 2**53 in magnitude, so the float that
    [total_seconds()] returns is that integer. *)
Lemma total_seconds_exact (t : datetime) :
  valid t = true ->
  Z.abs (total_seconds (sub t epoch)) < 2 ^ 53.
Proof.
  intros Hv. unfold sub. rewrite total_seconds_delta.
  apply valid_fields in Hv as (Hy & Hm & Hd & Hh & Hmi & Hs).
  unfold toordinal, ymd2ord, epoch. cbn [year month day hour minute second].
  pose proof (days_before_year_bounds (year t) Hy).
  pose proof (days_before_month_bounds (year t) (month t) Hm).
  pose proof (month_length_bounds (year t) (month t)).
  change (days_before_year 1900) with 693595.
  change (days_before_month 1900 1) with 0.
  change (2 ^ 53) with 9007199254740992. lia.
Qed.

End CalendarFacts.

(** * The regular expression of [strptime] *)

Module StrptimeFacts.

Import Re Datetime Stamp FormatGroups CalendarFacts.

(** Character tests as arithmetic on codes. *)
Ltac codes :=
  unfold digit, in_range, is_char, either in *;
  repeat match goal with
         | |- context [code (Ascii ?a ?b ?c ?d ?e ?f ?g ?h)] =>
             let v := eval vm_compute in (code (Ascii a b c d e f g h)) in
             change (code (Ascii a b c d e f g h)) with v
         | H : context [code (Ascii ?a ?b ?c ?d ?e ?f ?g ?h)] |- _ =>
             let v := eval vm_compute in (code (Ascii a b c d e f g h)) in
             change (code (Ascii a b c d e f g h)) with v in H
         end.

Ltac bools :=
  repeat match goal with
         | H : _ && _ = true |- _ => apply andb_true_iff in H; destruct H
         | H : _ || _ = true |- _ => apply orb_true_iff in H
         | H : _ && _ = false |- _ => apply andb_false_iff in H
         | H : _ || _ = false |- _ => apply orb_false_iff in H; destruct H
         | H : (_ <=? _) = true |- _ => apply Z.leb_le in H
         | H : (_ <=? _) = false |- _ => apply Z.leb_gt in H
         | H : (_ =? _) = true |- _ => apply Z.eqb_eq in H
         | H : (_ =? _) = false |- _ => apply Z.eqb_neq in H
         end.

Ltac group_inv :=
  intros k s r; unfold group_cases, text1, text2;
  destruct s as [|a [|b rest]]; simpl; intros H;
  [ discriminate
  | repeat match type of H with
           | context [if ?c then _ else _] => destruct c eqn:?
           | context [match ?k ?t ?u with _ => _ end] => destruct (k t u) eqn:?
           end;
    try discriminate; inversion H; subst; right; eauto
  | repeat match type of H with
           | context [if ?c then _ else _] => destruct c eqn:?
           | context [match ?k ?t ?u with _ => _ end] => destruct (k t u) eqn:?
           end;
    try discriminate; inversion H; subst;
    first [ right; do 2 eexists; split; [reflexivity|eassumption]
          | left; do 3 eexists; split; [reflexivity|]; split; [|eassumption];
            repeat match goal with E : _ = true |- _ => rewrite E end;
            rewrite ?orb_true_r; reflexivity ] ].

Lemma group_m_inv {R : Type} :
  forall (k : string -> string -> option R) s r,
    try_alts group_m k s = Some r -> group_cases two_m k s r.
Proof. unfold group_m, two_m. group_inv. Qed.

Lemma group_d_inv {R : Type} :
  forall (k : string -> string -> option R) s r,
    try_alts group_d k s = Some r -> group_cases two_d k s r.
Proof. unfold group_d, two_d. group_inv. Qed.

Lemma group_H_inv {R : Type} :
  forall (k : string -> string -> option R) s r,
    try_alts group_H k s = Some r -> group_cases two_H k s r.
Proof. unfold group_H, two_H. group_inv. Qed.

Lemma group_M_inv {R : Type} :
  forall (k : string -> string -> option R) s r,
    try_alts group_M k s = Some r -> group_cases two_M k s r.
Proof. unfold group_M, two_M. group_inv. Qed.

Lemma group_S_inv {R : Type} :
  forall (k : string -> string -> option R) s r,
    try_alts group_S k s = Some r -> group_cases two_S k s r.
Proof. unfold group_S, two_S. group_inv. Qed.

Ltac group_two :=
  intros k a b rest r Htwo Hk; unfold text2 in *; simpl;
  repeat match goal with
         | |- context [if ?c then _ else _] => destruct c eqn:?
         end;
  rewrite ?Hk; try reflexivity; exfalso;
  codes; bools; repeat match goal with H : _ \/ _ |- _ => destruct H end;
  bools; lia.

Lemma group_m_two {R : Type} :
  forall (k : string -> string -> option R) a b rest r,
    two_m a b = true -> k (text2 a b) rest = Some r ->
    try_alts group_m k (String a (String b rest)) = Some r.
Proof. unfold group_m, two_m. group_two. Qed.

Lemma group_d_two {R : Type} :
  forall (k : string -> string -> option R) a b rest r,
    two_d a b = true -> k (text2 a b) rest = Some r ->
    try_alts group_d k (String a (String b rest)) = Some r.
Proof. unfold group_d, two_d. group_two. Qed.

Lemma group_H_two {R : Type} :
  forall (k : string -> string -> option R) a b rest r,
    two_H a b = true -> k (text2 a b) rest = Some r ->
    try_alts group_H k (String a (String b rest)) = Some r.
Proof. unfold group_H, two_H. group_two. Qed.

Lemma group_M_two {R : Type} :
  forall (k : string -> string -> option R) a b rest r,
    two_M a b = true -> k (text2 a b) rest = Some r ->
    try_alts group_M k (String a (String b rest)) = Some r.
Proof. unfold group_M, two_M. group_two. Qed.

Lemma group_S_two {R : Type} :
  forall (k : string -> string -> option R) a b rest r,
    two_S a b = true -> k (text2 a b) rest = Some r ->
    try_alts group_S k (String a (String b rest)) = Some r.
Proof. unfold group_S, two_S. group_two. Qed.

Lemma group_Y_inv {R : Type} (k : string -> string -> option R) s r :
  try_alts group_Y k s = Some r ->
  exists a b c d rest,
    s = String a (String b (String c (String d rest)))
    /\ digit a = true /\ digit b = true /\ digit c = true /\ digit d = true
    /\ k (String a (String b (String c (String d EmptyString)))) rest = Some r.
Proof.
  unfold group_Y. destruct s as [|a [|b [|c [|d rest]]]]; simpl; intros H;
    repeat match type of H with
           | context [if ?c then _ else _] => destruct c eqn:?
           end; try discriminate.
  destruct (k _ rest) eqn:Ek; [|discriminate].
  inversion H; subst. exists a, b, c, d, rest. repeat split; assumption.
Qed.

Lemma group_Y_four {R : Type} (k : string -> string -> option R) a b c d rest r :
  digit a = true -> digit b = true -> digit c = true -> digit d = true ->
  k (String a (String b (String c (String d EmptyString)))) rest = Some r ->
  try_alts group_Y k (String a (String b (String c (String d rest)))) = Some r.
Proof.
  intros Ha Hb Hc Hd Hk. unfold group_Y. simpl.
  now rewrite Ha, Hb, Hc, Hd, Hk.
Qed.

Lemma literal_T_inv {R : Type} (k : string -> string -> option R) s r :
  try_alts literal_T k s = Some r ->
  exists c rest, s = String c rest
                 /\ either (is_char "T") (is_char "t") c = true
                 /\ k (text1 c) rest = Some r.
Proof.
  unfold literal_T. destruct s as [|c rest]; simpl; intros H; [discriminate|].
  destruct (either (is_char "T") (is_char "t") c) eqn:E; [|discriminate].
  destruct (k _ rest) eqn:Ek; [|discriminate].
  inversion H; subst. exists c, rest. auto.
Qed.

Lemma literal_T_one {R : Type} (k : string -> string -> option R) c rest r :
  is_char "T" c = true -> k (text1 c) rest = Some r ->
  try_alts literal_T k (String c rest) = Some r.
Proof.
  intros Hc Hk. unfold literal_T, either, text1 in *. simpl.
  rewrite Hc. simpl. now rewrite Hk.
Qed.

Lemma py_int_number (text : string) :
  all_in digit text -> py_int text = number (list_ascii_of_string text).
Proof.
  unfold all_in, py_int, number. generalize 0.
  induction (list_ascii_of_string text) as [|c l IH]; intros acc H;
    [reflexivity|].
  apply Forall_cons_iff in H as [Hc Hl]. simpl. rewrite Hc. now apply IH.
Qed.

Lemma strptime_error (s : string) (e : exn) :
  strptime s = Err e -> e = ValueError.
Proof.
  unfold strptime, make.
  destruct (format_match s) as [[[[[[[tY tm] td] tH] tM] tS] rest]|];
    [|congruence].
  destruct rest; [|congruence].
  destruct (_ && _); congruence.
Qed.

End StrptimeFacts.

Module TokenFacts.

Import Re Datetime Stamp FormatGroups CalendarFacts StrptimeFacts.

Ltac to_arith :=
  rewrite ?orb_true_iff, ?andb_true_iff, ?Z.leb_le, ?Z.eqb_eq.

Ltac solve_two :=
  codes; bools; to_arith; lia.

Ltac all_digits :=
  unfold all_in; simpl; repeat constructor; assumption.

(** A token of the calendar is read by [strptime] as the date-time it
    encodes. *)
Lemma decode_strptime (t : string) (dt : datetime) :
  decode t = Some dt -> strptime t = Ok dt.
Proof.
  unfold decode. intros H.
  rewrite <- (string_of_list_ascii_of_string t).
  destruct (list_ascii_of_string t) as [|y0 l]; [discriminate|].
  destruct l as [|y1 l]; [discriminate|].
  destruct l as [|y2 l]; [discriminate|].
  destruct l as [|y3 l]; [discriminate|].
  destruct l as [|m0 l]; [discriminate|].
  destruct l as [|m1 l]; [discriminate|].
  destruct l as [|d0 l]; [discriminate|].
  destruct l as [|d1 l]; [discriminate|].
  destruct l as [|sep l]; [discriminate|].
  destruct l as [|h0 l]; [discriminate|].
  destruct l as [|h1 l]; [discriminate|].
  destruct l as [|mi0 l]; [discriminate|].
  destruct l as [|mi1 l]; [discriminate|].
  destruct l as [|s0 l]; [discriminate|].
  destruct l as [|s1 l]; [discriminate|].
  destruct l; [|discriminate].
  destruct (forallb _ _ && _) eqn:Echk; [|discriminate].
  destruct (Calendar.valid _) eqn:Ev; [|discriminate].
  inversion H; subst dt; clear H.
  cbn [forallb] in Echk.
  repeat match goal with
         | H : _ && _ = true |- _ => apply andb_true_iff in H; destruct H
         end.
  pose proof (valid_fields _ Ev) as (Hy & Hm & Hd & Hh & Hmi & Hs).
  pose proof (Calendar_month_length_bounds := month_length_bounds
                (number [y0; y1; y2; y3]) (number [m0; m1])).
  unfold number in Hy, Hm, Hd, Hh, Hmi, Hs, Calendar_month_length_bounds.
  cbn [year month day hour minute second fold_left] in *.
  cbn [string_of_list_ascii].
  assert (E : format_match
                (String y0 (String y1 (String y2 (String y3
                (String m0 (String m1 (String d0 (String d1 (String sep
                (String h0 (String h1 (String mi0 (String mi1
                (String s0 (String s1 EmptyString)))))))))))))))
              = Some (String y0 (String y1 (String y2 (String y3 EmptyString))),
                      text2 m0 m1, text2 d0 d1, text2 h0 h1, text2 mi0 mi1,
                      text2 s0 s1, EmptyString)).
  { unfold format_match.
    apply group_Y_four; try assumption.
    apply group_m_two; [unfold two_m; solve_two|].
    apply group_d_two; [unfold two_d; solve_two|].
    apply literal_T_one; [assumption|].
    apply group_H_two; [unfold two_H; solve_two|].
    apply group_M_two; [unfold two_M; solve_two|].
    apply group_S_two; [unfold two_S; solve_two|].
    reflexivity. }
  unfold strptime. rewrite E. unfold text2.
  rewrite !py_int_number by all_digits.
  cbn [list_ascii_of_string]. unfold make.
  rewrite check_fields_valid, Ev. reflexivity.
Qed.

Ltac crunch :=
  codes;
  repeat (bools; repeat match goal with H : _ \/ _ |- _ => destruct H end);
  to_arith; lia.

Ltac split_group E inv :=
  apply inv in E;
  let a := fresh "c" in
  let b := fresh "c" in
  let r := fresh "r" in
  let Htwo := fresh "Htwo" in
  destruct E as [(a & b & r & -> & Htwo & E) | (a & r & -> & E)];
  cbv beta in E.

(** Conversely, what [strptime] reads from fifteen characters of the
    token class is a token of the calendar. *)
Lemma strptime_decode (t : string) (dt : datetime) :
  String.length t = 15%nat -> all_in token_class t ->
  strptime t = Ok dt -> decode t = Some dt.
Proof.
  intros Hlen Hcls H. unfold strptime in H.
  destruct (format_match t) as [[[[[[[tY tm] td] tH] tM] tS] rest]|] eqn:E;
    [|discriminate].
  destruct rest; [|discriminate].
  unfold format_match in E.
  apply group_Y_inv in E as (y0 & y1 & y2 & y3 & r1 & -> & Hy0 & Hy1 & Hy2 & Hy3 & E).
  cbv beta in E.
  split_group E (@group_m_inv (string * string * string * string * string * string * string));
  split_group E (@group_d_inv (string * string * string * string * string * string * string));
  (apply literal_T_inv in E as (sep & r4 & -> & Hsep & E); cbv beta in E);
  split_group E (@group_H_inv (string * string * string * string * string * string * string));
  split_group E (@group_M_inv (string * string * string * string * string * string * string));
  split_group E (@group_S_inv (string * string * string * string * string * string * string));
  inversion E; subst; clear E; try discriminate Hlen.
  rename c into m0, c0 into m1, c1 into d0, c2 into d1, c3 into h0,
    c4 into h1, c5 into mi0, c6 into mi1, c7 into s0, c8 into s1.
  unfold all_in in Hcls. cbn [list_ascii_of_string] in Hcls.
  rewrite Forall_forall in Hcls.
  assert (Cd : token_class d0 = true) by (apply Hcls; simpl; tauto).
  assert (Cs : token_class sep = true) by (apply Hcls; simpl; tauto).
  clear Hcls Hlen. unfold token_class in Cd, Cs.
  assert (Dm0 : digit m0 = true) by (unfold two_m in *; crunch).
  assert (Dm1 : digit m1 = true) by (unfold two_m in *; crunch).
  assert (Dd0 : digit d0 = true) by (unfold two_d in *; clear Cs; crunch).
  assert (Dd1 : digit d1 = true) by (unfold two_d in *; clear Cs Cd; crunch).
  assert (Dh0 : digit h0 = true) by (unfold two_H in *; crunch).
  assert (Dh1 : digit h1 = true) by (unfold two_H in *; crunch).
  assert (Dmi0 : digit mi0 = true) by (unfold two_M in *; crunch).
  assert (Dmi1 : digit mi1 = true) by (unfold two_M in *; crunch).
  assert (Ds0 : digit s0 = true) by (unfold two_S in *; crunch).
  assert (Ds1 : digit s1 = true) by (unfold two_S in *; crunch).
  assert (Tsep : is_char "T" sep = true) by (clear Cd; crunch).
  unfold text2 in H. rewrite !py_int_number in H by all_digits.
  cbn [list_ascii_of_string] in H. unfold make in H.
  rewrite check_fields_valid in H.
  unfold decode. cbn [list_ascii_of_string forallb].
  rewrite Hy0, Hy1, Hy2, Hy3, Dm0, Dm1, Dd0, Dd1, Dh0, Dh1, Dmi0, Dmi1,
    Ds0, Ds1, Tsep. cbn [andb].
  destruct (Calendar.valid _); [|discriminate]. now inversion H.
Qed.

(** On fifteen characters of the token class [strptime] and the calendar
    reading agree. *)
Lemma strptime_token (t : string) :
  String.length t = 15%nat -> all_in token_class t ->
  strptime t = match decode t with
               | Some dt => Ok dt
               | None => Err ValueError
               end.
Proof.
  intros Hlen Hcls. destruct (decode t) as [dt|] eqn:Ed.
  - now apply decode_strptime.
  - destruct (strptime t) as [dt|e] eqn:Es.
    + apply strptime_decode in Es; [congruence | assumption | assumption].
    + now rewrite (strptime_error t e Es).
Qed.

End TokenFacts.

(** * Runs of a character class *)

Module RunFacts.

Import Re Datetime Stamp.

Lemma chars_app (s1 s2 : string) :
  list_ascii_of_string (s1 ++ s2)
  = list_ascii_of_string s1 ++ list_ascii_of_string s2.
Proof. induction s1 as [|c s1 IH]; simpl; [reflexivity|]. now rewrite IH. Qed.

Lemma length_app_string (s1 s2 : string) :
  String.length (s1 ++ s2) = (String.length s1 + String.length s2)%nat.
Proof. induction s1 as [|c s1 IH]; simpl; [reflexivity|]. now rewrite IH. Qed.

Lemma app_same_length (p1 p2 x1 x2 : string) :
  (p1 ++ x1 = p2 ++ x2)%string -> String.length p1 = String.length p2 ->
  p1 = p2 /\ x1 = x2.
Proof.
  revert p2. induction p1 as [|c p1 IH]; intros [|d p2] E L;
    simpl in *; try discriminate.
  - auto.
  - inversion E; subst. destruct (IH p2 H1) as [-> ->]; [lia|]. auto.
Qed.

Section Runs.

Variable p : cls.

Lemma match_run (n : nat) (s t r : string) :
  match_alt (repeat p n) s = Some (t, r) <->
  s = (t ++ r)%string /\ String.length t = n /\ all_in p t.
Proof.
  unfold all_in. revert s t r. induction n as [|m IH]; intros s t r; simpl.
  - split.
    + intros H. inversion H; subst. repeat split. constructor.
    + intros (-> & L & _). destruct t; [reflexivity|discriminate].
  - destruct s as [|c s].
    + split; [discriminate|]. intros (E & L & _).
      destruct t; discriminate.
    + destruct (p c) eqn:Ec.
      * destruct (match_alt (repeat p m) s) as [[t' r']|] eqn:Em.
        -- apply IH in Em as (-> & L & Hall). split.
           ++ intros H. inversion H; subst. simpl.
              repeat split. now constructor.
           ++ intros (E & L' & Hall'). destruct t as [|d t]; [discriminate|].
              simpl in *. inversion E; subst d.
              apply Forall_cons_iff in Hall' as [_ Hall'].
              destruct (app_same_length t t' r r') as [-> ->];
                [congruence | lia | reflexivity].
        -- split; [discriminate|]. intros (E & L & Hall).
           destruct t as [|d t]; [discriminate|]. simpl in *.
           inversion E; subst d. apply Forall_cons_iff in Hall as [_ Hall].
           assert (Some (t, r) = None); [|discriminate].
           rewrite <- Em. symmetry. apply IH. subst s.
           repeat split; [lia | assumption].
      * split; [discriminate|]. intros (E & L & Hall).
        destruct t as [|d t]; [discriminate|]. simpl in *.
        inversion E; subst d. apply Forall_cons_iff in Hall as [Hc _].
        congruence.
Qed.

Lemma findall_first (n : nat) (s : string) :
  (0 < n)%nat ->
  py_first (findall p n s)
  = match leftmost_run p n s with
    | Some t => Ok t
    | None => Err IndexError
    end.
Proof.
  intros Hn. unfold findall. induction s as [|c s IH].
  - destruct n; [lia|]. reflexivity.
  - cbn [findall_from leftmost_run].
    destruct (match_alt (repeat p n) (String c s)) as [[t r]|];
      [reflexivity | exact IH].
Qed.

Lemma leftmost_run_first (n : nat) (s t : string) :
  leftmost_run p n s = Some t -> first_run p n s t.
Proof.
  revert t. induction s as [|c s IH]; intros t H; cbn [leftmost_run] in H.
  - destruct (match_alt (repeat p n) EmptyString) as [[t' r]|] eqn:Em;
      [|discriminate].
    inversion H; subst t'. apply match_run in Em as (E & L & Hall).
    exists EmptyString, r. repeat split; try assumption. simpl; lia.
  - destruct (match_alt (repeat p n) (String c s)) as [[t' r]|] eqn:Em.
    + inversion H; subst t'. apply match_run in Em as (E & L & Hall).
      exists EmptyString, r. repeat split; try assumption. simpl; lia.
    + destruct (IH t H) as (pre & post & E & L & Hall & Hmin).
      exists (String c pre), post. subst s.
      repeat split; try assumption.
      intros pre' t' post' E' L' Hall'.
      destruct pre' as [|d pre'].
      * exfalso. simpl in E'.
        assert (Some (t', post') = None); [|discriminate].
        rewrite <- Em. symmetry. apply match_run. auto.
      * simpl in E'. inversion E'; subst d.
        specialize (Hmin pre' t' post' H2 L' Hall'). simpl. lia.
Qed.

Lemma leftmost_run_none (n : nat) (s : string) :
  leftmost_run p n s = None -> ~ has_run p n s.
Proof.
  induction s as [|c s IH]; intros H (pre & t & post & E & L & Hall);
    cbn [leftmost_run] in H.
  - destruct (match_alt (repeat p n) EmptyString) as [[t' r]|] eqn:Em;
      [discriminate|].
    destruct pre; [|discriminate]. simpl in E.
    assert (Some (t, post) = None); [|discriminate].
    rewrite <- Em. symmetry. apply match_run. auto.
  - destruct (match_alt (repeat p n) (String c s)) as [[t' r]|] eqn:Em;
      [discriminate|].
    destruct pre as [|d pre].
    + simpl in E. assert (Some (t, post) = None); [|discriminate].
      rewrite <- Em. symmetry. apply match_run. auto.
    + simpl in E. inversion E; subst d.
      apply (IH H). exists pre, t, post. auto.
Qed.

Lemma first_run_has_run (n : nat) (s t : string) :
  first_run p n s t -> has_run p n s.
Proof.
  intros (pre & post & E & L & Hall & _). exists pre, t, post. auto.
Qed.

Lemma first_run_unique (n : nat) (s t1 t2 : string) :
  first_run p n s t1 -> first_run p n s t2 -> t1 = t2.
Proof.
  intros (pre1 & post1 & E1 & L1 & A1 & M1) (pre2 & post2 & E2 & L2 & A2 & M2).
  pose proof (M1 pre2 t2 post2 E2 L2 A2).
  pose proof (M2 pre1 t1 post1 E1 L1 A1).
  rewrite E1 in E2.
  destruct (app_same_length pre1 pre2 _ _ E2) as [_ E]; [lia|].
  destruct (app_same_length t1 t2 _ _ E) as [Et _]; [lia|]. exact Et.
Qed.

Lemma leftmost_run_spec (n : nat) (s t : string) :
  leftmost_run p n s = Some t <-> first_run p n s t.
Proof.
  split; [apply leftmost_run_first|]. intros H.
  destruct (leftmost_run p n s) as [t'|] eqn:E.
  - f_equal. apply leftmost_run_first in E.
    exact (first_run_unique n s t' t E H).
  - exfalso. exact (leftmost_run_none n s E (first_run_has_run n s t H)).
Qed.

Lemma leftmost_run_none_spec (n : nat) (s : string) :
  leftmost_run p n s = None <-> ~ has_run p n s.
Proof.
  split; [apply leftmost_run_none|]. intros H.
  destruct (leftmost_run p n s) as [t|] eqn:E; [|reflexivity].
  exfalso. apply H. apply leftmost_run_first in E.
  exact (first_run_has_run n s t E).
Qed.

End Runs.

Import CalendarFacts StrptimeFacts TokenFacts.

Lemma decode_valid (t : string) (dt : datetime) :
  decode t = Some dt -> Calendar.valid dt = true.
Proof.
  unfold decode.
  destruct (list_ascii_of_string t)
    as [|y0 [|y1 [|y2 [|y3 [|m0 [|m1 [|d0 [|d1 [|sep [|h0 [|h1 [|mi0 [|mi1
        [|s0 [|s1 [|x l]]]]]]]]]]]]]]]]; try discriminate.
  destruct (_ && _); [|discriminate].
  destruct (Calendar.valid _) eqn:Ev; [|discriminate].
  intros H. now inversion H; subst.
Qed.

(** What [seconds] returns, by the leftmost run of the token class. *)
Lemma seconds_by_leftmost_run (filename : string) :
  seconds filename
  = match leftmost_run token_class 15 filename with
    | None => Err IndexError
    | Some token =>
        match decode token with
        | Some dt => Ok (Calendar.seconds_since_epoch dt)
        | None => Err ValueError
        end
    end.
Proof.
  unfold seconds. rewrite findall_first by lia.
  destruct (leftmost_run token_class 15 filename) as [token|] eqn:E;
    [|reflexivity].
  apply leftmost_run_first in E as (pre & post & _ & L & Hall & _).
  cbn [bind]. rewrite (strptime_token token L Hall).
  destruct (decode token) as [dt|] eqn:Ed; [|reflexivity].
  cbn [bind]. change (make 1900 1 1 0 0 0) with (Ok Calendar.epoch). cbn [bind].
  now rewrite (total_seconds_elapsed dt (decode_valid token dt Ed)).
Qed.

End RunFacts.

(** * Splitting and dictionaries *)

Module PyFacts.

Lemma split_nonempty (sep : ascii) (s : string) : split sep s <> [].
Proof.
  induction s as [|c s IH]; simpl; [discriminate|].
  destruct (Ascii.eqb c sep); [discriminate|].
  destruct (split sep s); [contradiction|discriminate].
Qed.

(** Joining the pieces with the separator gives the string back. *)
Lemma join_split (sep : ascii) (s : string) : join sep (split sep s) = s.
Proof.
  induction s as [|c s IH]; [reflexivity|]. simpl split.
  pose proof (split_nonempty sep s) as Hne.
  destruct (Ascii.eqb c sep) eqn:E.
  - apply Ascii.eqb_eq in E. subst c.
    destruct (split sep s) as [|t ts]; [contradiction|].
    cbn [join]. cbn [join] in IH. rewrite IH. reflexivity.
  - destruct (split sep s) as [|t ts]; [contradiction|].
    destruct ts as [|u ts]; cbn [join] in *; simpl; now rewrite IH.
Qed.

(** No piece holds the separator. *)
Lemma split_pieces (sep : ascii) (s : string) :
  Forall (fun t => ~ In sep (list_ascii_of_string t)) (split sep s).
Proof.
  induction s as [|c s IH]; simpl.
  - constructor; [|constructor]. simpl. tauto.
  - destruct (Ascii.eqb c sep) eqn:E.
    + constructor; [simpl; tauto | exact IH].
    + apply Ascii.eqb_neq in E.
      destruct (split sep s) as [|t ts]; [repeat constructor; simpl; intuition|].
      apply Forall_cons_iff in IH as [Ht Hts]. constructor; [|exact Hts].
      simpl. intros [H|H]; [congruence | contradiction].
Qed.

Lemma get_error (d : dict) (key : string) (e : exn) :
  get d key = Err e -> e = KeyError.
Proof.
  induction d as [|[k v] d IH]; simpl; [congruence|].
  destruct (String.eqb k key); [discriminate | exact IH].
Qed.

Lemma get_unknown (d : dict) (key : string) :
  ~ In key (map fst d) -> get d key = Err KeyError.
Proof.
  induction d as [|[k v] d IH]; simpl; intros H; [reflexivity|].
  destruct (String.eqb k key) eqn:E.
  - apply String.eqb_eq in E. tauto.
  - apply IH. tauto.
Qed.

End PyFacts.

(** * parse_datasetname and find_datasets *)

Section ProductFacts.

Import PyFacts Datetime Stamp TokenFacts.

Variable product_match : string -> option captures.
Variable finder : string -> list string.

Lemma metadata_keys_of (m : captures) (steps : string) (st : value) :
  map fst (metadata m steps st) = metadata_keys.
Proof. reflexivity. Qed.

Lemma parse_datasetname_raw (name : string) (m : captures) (steps : string) :
  product_match name = Some m -> proc_steps m = Some steps ->
  parse_datasetname product_match name false
  = Ok (Some (metadata m steps (of_group (start m)))).
Proof.
  intros Hm Hs. unfold parse_datasetname, groupdict, metadata.
  rewrite Hm, Hs. cbn [get String.eqb Ascii.eqb Bool.eqb bind of_group].
  destruct (extensions m) as [e|]; cbn [of_group value_eqb].
  - destruct (String.eqb e EmptyString) eqn:Ee;
      cbn [set get String.eqb Ascii.eqb Bool.eqb bind];
      destruct steps; reflexivity.
  - cbn [set get String.eqb Ascii.eqb Bool.eqb bind].
    destruct steps; reflexivity.
Qed.

Lemma parse_datasetname_dated (name : string) (m : captures)
  (steps s : string) :
  product_match name = Some m -> proc_steps m = Some steps ->
  start m = Some s ->
  parse_datasetname product_match name true
  = bind (strptime s) (fun t => Ok (Some (metadata m steps (VDate t)))).
Proof.
  intros Hm Hs Hst. unfold parse_datasetname, groupdict, metadata.
  rewrite Hm, Hs, Hst. cbn [get String.eqb Ascii.eqb Bool.eqb bind of_group].
  assert (Hlen : (0 <? Z.of_nat (String.length steps))
                 = negb (String.eqb steps EmptyString)) by (destruct steps; reflexivity).
  destruct (extensions m) as [e|]; cbn [of_group value_eqb];
    [destruct (String.eqb e EmptyString)|];
    cbn [set get String.eqb Ascii.eqb Bool.eqb bind]; rewrite Hlen;
    destruct (String.eqb steps EmptyString); cbn [negb];
    cbn [set get String.eqb Ascii.eqb Bool.eqb bind]; reflexivity.
Qed.

(** Without a processing-steps group [len(None)] raises. *)
Lemma parse_datasetname_steps_missing (name : string) (m : captures)
  (parse_date : bool) :
  product_match name = Some m -> proc_steps m = None ->
  parse_datasetname product_match name parse_date = Err TypeError.
Proof.
  intros Hm Hs. unfold parse_datasetname, groupdict. rewrite Hm, Hs.
  cbn [get String.eqb Ascii.eqb Bool.eqb bind of_group].
  destruct (value_eqb _ _);
    cbn [set get String.eqb Ascii.eqb Bool.eqb bind]; reflexivity.
Qed.

End ProductFacts.

Section FinderFacts.

Import PyFacts.

Variable product_match : string -> option captures.
Variable finder : string -> list string.

(** The loop over the keyword arguments keeps the verdict of the last
    one only. *)
Lemma constraints_last (meta : option dict) (front : list (string * constraint))
  (kv : string * constraint) (b : bool) :
  (forall kv', In kv' front -> exists b', check_constraint meta true kv' = Ok b') ->
  for_each (check_constraint meta) (front ++ [kv]) b
  = check_constraint meta true kv.
Proof.
  revert b. induction front as [|kv0 front IH]; intros b H; simpl.
  - destruct meta; [|reflexivity]. simpl.
    destruct (get d (fst kv)); [|reflexivity]. simpl.
    destruct (snd kv); reflexivity.
  - destruct (H kv0 (or_introl eq_refl)) as [b' Hb'].
    replace (check_constraint meta b kv0) with (check_constraint meta true kv0)
      by reflexivity.
    rewrite Hb'. simpl. apply IH. intros kv' Hin. apply H. now right.
Qed.

Lemma constraints_unknown_key (d : dict) (kwargs : list (string * constraint))
  (key : string) (c : constraint) (b : bool) :
  In (key, c) kwargs -> get d key = Err KeyError ->
  for_each (check_constraint (Some d)) kwargs b = Err KeyError.
Proof.
  revert b. induction kwargs as [|[k c0] kwargs IH]; intros b Hin Hk;
    [contradiction|].
  cbn [for_each check_constraint fst snd].
  destruct (get d k) as [v|e] eqn:Eg.
  - destruct Hin as [Heq|Hin]; [inversion Heq; subst; congruence|].
    cbn [bind]. destruct c0; cbn [bind]; now apply IH.
  - cbn [bind]. now rewrite (get_error d k e Eg).
Qed.

Lemma parse_datasetname_keys (name : string) (meta : dict) :
  parse_datasetname product_match name false = Ok (Some meta) ->
  map fst meta = metadata_keys.
Proof.
  intros H.
  destruct (product_match name) as [m|] eqn:Em.
  - destruct (proc_steps m) as [steps|] eqn:Es.
    + rewrite (parse_datasetname_raw product_match name m steps Em Es) in H.
      inversion H. reflexivity.
    + unfold parse_datasetname, groupdict in H. rewrite Em, Es in H.
      cbn [get String.eqb Ascii.eqb Bool.eqb bind of_group] in H.
      destruct (value_eqb _ _);
        cbn [set get String.eqb Ascii.eqb Bool.eqb bind] in H; discriminate.
  - unfold parse_datasetname in H. rewrite Em in H. discriminate.
Qed.

End FinderFacts.

(** * Part three: the properties of the specification *)

Import Re Datetime Stamp CalendarFacts RunFacts PyFacts TokenFacts.

(** * groupbyTime: the claims *)

(** C5: on a non-empty input the groups are cut out of the items sorted
    ascending by time, in that order; inside a group every item is more than
    zero and at most [time] away from the item before it; where one group
    ends and the next begins that test fails; these two rules leave no other
    way to cut the sorted items; hence no two members of a group share a
    time value; a group of one member is returned as the bare item, a
    larger one as a list. *)
Theorem groupbyTime_scan {A : Type} (images : list A) (function : A -> Z)
  (time : Z) :
  images <> [] ->
  exists gs : list (list A),
    groupbyTime images function time = Ok (map unwrap gs)
    /\ concat gs = sorted images function
    /\ ascending function (concat gs)
    /\ Forall (fun g => g <> []) gs
    /\ Forall (Sorted (close function time)) gs
    /\ Sorted (boundary function time) gs
    /\ (forall gs' : list (list A),
          concat gs' = sorted images function ->
          Forall (fun g => g <> []) gs' ->
          Forall (Sorted (close function time)) gs' ->
          Sorted (boundary function time) gs' ->
          gs' = gs)
    /\ Forall (fun g => NoDup (map function g)) gs
    /\ Forall (fun g => (exists x, g = [x] /\ unwrap g = Single x)
                        \/ ((1 < List.length g)%nat /\ unwrap g = Many g)) gs.
Proof.
  intros Hne.
  destruct (groupbyTime_groups function time images Hne)
    as [gs [E [_ Hwg]]].
  pose proof Hwg as [Hc Hn Hw Hb].
  assert (Hasc : ascending function (concat gs))
    by (rewrite Hc; apply sorted_ascending).
  exists gs. repeat split; try assumption.
  - intros gs' Hc' Hn' Hw' Hb'.
    apply (well_grouped_unique function time gs' gs (sorted images function));
      [split; assumption | exact Hwg].
  - now apply groups_distinct_times with (time := time).
  - eapply Forall_impl; [|exact Hn]. intros g. apply unwrap_by_length.
Qed.

Lemma groupbyTime_scan_witness :
  exists gs : list (list Z),
    groupbyTime [5; 1; 2; 9; 1] (fun x => x) 3 = Ok (map unwrap gs)
    /\ concat gs = [1; 1; 2; 5; 9]
    /\ Forall (fun g => NoDup g) gs.
Proof.
  destruct (groupbyTime_scan [5; 1; 2; 9; 1] (fun x => x) 3)
    as [gs [E [Hc [_ [_ [_ [_ [_ [Hd _]]]]]]]]]; [discriminate|].
  exists gs. split; [exact E|]. split; [exact Hc|].
  eapply Forall_impl; [|exact Hd]. intros g Hg. cbv beta in Hg.
  rewrite <- (map_id g). exact Hg.
Defined.

(** C10: on a non-empty input the returned entries, a bare item read as a
    group of one, concatenate to the input sorted ascending by time: a
    permutation of the input, so no item is lost or repeated. *)
Theorem groupbyTime_partition {A : Type} (images : list A) (function : A -> Z)
  (time : Z) :
  images <> [] ->
  exists out : list (entry A),
    groupbyTime images function time = Ok out
    /\ concat (map members out) = sorted images function
    /\ Permutation images (concat (map members out))
    /\ StronglySorted (fun x y => function x <= function y)
         (concat (map members out)).
Proof.
  intros Hne.
  destruct (groupbyTime_groups function time images Hne)
    as [gs [E [_ [Hc _ _ _]]]].
  exists (map unwrap gs). rewrite concat_members, Hc.
  split; [exact E|]. split; [reflexivity|].
  split; [apply sorted_perm | apply sorted_ascending].
Qed.

Lemma groupbyTime_partition_witness :
  exists out : list (entry Z),
    groupbyTime [5; 1; 2; 9; 1] (fun x => x) 3 = Ok out
    /\ concat (map members out) = sorted [5; 1; 2; 9; 1] (fun x => x)
    /\ Permutation [5; 1; 2; 9; 1] (concat (map members out))
    /\ StronglySorted (fun x y => x <= y) (concat (map members out)).
Proof. apply (groupbyTime_partition [5; 1; 2; 9; 1] (fun x => x) 3). discriminate. Defined.

(** C9: on the empty list the access to the first sorted item raises
    IndexError. *)
Theorem groupbyTime_empty {A : Type} (function : A -> Z) (time : Z) :
  groupbyTime (@nil A) function time = Err IndexError.
Proof. reflexivity. Qed.

(** C4, as stated, fails: two items with the same time keep their input
    order, and the groups follow it. *)
Lemma groupbyTime_order_matters :
  Permutation [("a", 0); ("b", 0); ("c", 1)]%string
              [("b", 0); ("a", 0); ("c", 1)]%string
  /\ groupbyTime [("a", 0); ("b", 0); ("c", 1)]%string snd 1
     = Ok [Single ("a", 0); Many [("b", 0); ("c", 1)]]%string
  /\ groupbyTime [("b", 0); ("a", 0); ("c", 1)]%string snd 1
     = Ok [Single ("b", 0); Many [("a", 0); ("c", 1)]]%string
  /\ groupbyTime [("a", 0); ("b", 0); ("c", 1)]%string snd 1
     <> groupbyTime [("b", 0); ("a", 0); ("c", 1)]%string snd 1.
Proof.
  split; [apply perm_swap|].
  split; [reflexivity|]. split; [reflexivity|]. discriminate.
Qed.

(** C4, amended: when no two different items of the input share a time
    value, every permutation of the input is grouped alike. *)
Theorem groupbyTime_permutation {A : Type} (images images' : list A)
  (function : A -> Z) (time : Z) :
  Permutation images images' ->
  (forall x y, In x images -> In y images -> function x = function y -> x = y) ->
  groupbyTime images function time = groupbyTime images' function time.
Proof.
  intros HP Hinj. unfold groupbyTime.
  now rewrite (sorted_respects_perm function images images' HP Hinj).
Qed.

Lemma groupbyTime_permutation_witness :
  groupbyTime [3; 1; 2] (fun x => x) 1 = groupbyTime [1; 3; 2] (fun x => x) 1.
Proof.
  apply (groupbyTime_permutation [3; 1; 2] [1; 3; 2] (fun x => x) 1).
  - apply perm_swap.
  - intros x y _ _ H. exact H.
Defined.


(** * seconds: the claims *)

(** C3, as stated, fails: fifteen times the separator holds no substring of
    the shape eight digits, separator, six digits, and yet the failure is
    the parse error, not the missing match. *)
Lemma seconds_parse_error_without_shape :
  ~ has_shaped "TTTTTTTTTTTTTTT"
  /\ seconds "TTTTTTTTTTTTTTT" = Err ValueError
  /\ seconds "TTTTTTTTTTTTTTT" <> Err IndexError.
Proof.
  split; [|split; [reflexivity | discriminate]].
  intros (pre & t & post & E & date & clock & Et & Ld & _ & Hd & _).
  destruct date as [|c date]; [discriminate|].
  unfold all_in in Hd. simpl in Hd. apply Forall_cons_iff in Hd as [Hc _].
  assert (Hin : In c (list_ascii_of_string "TTTTTTTTTTTTTTT")).
  { rewrite E, Et. rewrite !chars_app. simpl.
    apply in_or_app. right. left. reflexivity. }
  simpl in Hin.
  repeat (destruct Hin as [<-|Hin]; [discriminate Hc|]). exact Hin.
Qed.

(** C3, amended: the missing match (IndexError) is raised exactly when the
    file name holds no run of fifteen characters out of the digits and T;
    the parse error (ValueError) exactly when there is such a run and the
    leftmost one is not a date-time YYYYMMDDThhmmss of the calendar. *)
Theorem seconds_failures (filename : string) :
  (seconds filename = Err IndexError <-> ~ has_run token_class 15 filename)
  /\ (seconds filename = Err ValueError <->
      exists token, first_run token_class 15 filename token
                    /\ decode token = None).
Proof.
  rewrite seconds_by_leftmost_run. split.
  - rewrite <- leftmost_run_none_spec.
    destruct (leftmost_run token_class 15 filename) as [token|].
    + destruct (decode token); split; discriminate.
    + split; reflexivity.
  - destruct (leftmost_run token_class 15 filename) as [token|] eqn:E.
    + apply leftmost_run_spec in E. split.
      * intros H. exists token. split; [exact E|].
        destruct (decode token); [discriminate | reflexivity].
      * intros (token' & E' & Hd).
        rewrite (first_run_unique token_class 15 filename token token' E E').
        now rewrite Hd.
    + split; [discriminate|]. intros (token & E' & _).
      apply leftmost_run_spec in E'. congruence.
Qed.

(** C6, as stated, fails: the name below holds the valid token
    20150309T173017, but the leftmost run of fifteen characters of the class
    starts one character earlier and is not a date-time. *)
Lemma seconds_token_behind_digit :
  (exists pre token post dt,
      "120150309T173017"%string = (pre ++ token ++ post)%string
      /\ shaped token /\ decode token = Some dt)
  /\ seconds "120150309T173017" = Err ValueError.
Proof.
  split; [|reflexivity].
  exists "1"%string, "20150309T173017"%string, EmptyString,
    (mkDatetime 2015 3 9 17 30 17).
  split; [reflexivity|]. split; [|reflexivity].
  exists "20150309"%string, "173017"%string.
  repeat split; unfold all_in; simpl; repeat constructor.
Qed.

(** C6, amended: when the leftmost run of fifteen characters out of the
    digits and T is a date-time token of the calendar, [seconds] returns the
    seconds elapsed from 1900-01-01T00:00:00 to the date-time it encodes,
    an integer below 2**53 in magnitude and hence exact as a float. *)
Theorem seconds_elapsed (filename token : string) (dt : datetime) :
  first_run token_class 15 filename token ->
  decode token = Some dt ->
  seconds filename = Ok (Calendar.seconds_since_epoch dt)
  /\ Z.abs (Calendar.seconds_since_epoch dt) < 2 ^ 53.
Proof.
  intros Hrun Hd. split.
  - rewrite seconds_by_leftmost_run.
    apply leftmost_run_spec in Hrun. now rewrite Hrun, Hd.
  - pose proof (decode_valid token dt Hd) as Hv.
    rewrite <- (total_seconds_elapsed dt Hv).
    now apply total_seconds_exact.
Qed.

Lemma seconds_elapsed_witness :
  seconds documented_name = Ok 3634911017 /\ Z.abs 3634911017 < 2 ^ 53.
Proof.
  apply (seconds_elapsed documented_name "20150309T173017"
           (mkDatetime 2015 3 9 17 30 17)).
  - apply leftmost_run_spec. reflexivity.
  - reflexivity.
Defined.


(** * parse_datasetname: the claims *)

(** C7: a name the product pattern does not match at its start gives the
    absent result, with or without date parsing, and no exception. *)
Theorem parse_datasetname_no_match
  (product_match : string -> option captures) (name : string)
  (parse_date : bool) :
  product_match name = None ->
  parse_datasetname product_match name parse_date = Ok None.
Proof. intros H. unfold parse_datasetname. now rewrite H. Qed.

Lemma parse_datasetname_no_match_witness :
  parse_datasetname documented_match "random.txt" true = Ok None.
Proof.
  apply (parse_datasetname_no_match documented_match "random.txt" true).
  reflexivity.
Defined.

(** C8, as stated, fails: the pattern is taken as it comes, and a match in
    which the processing-steps group took no part makes [len(None)] raise
    TypeError, with or without date parsing, so nothing is post-processed. *)
Lemma parse_datasetname_steps_none_raises :
  (fun _ : string =>
     Some (mkCaptures (Some "S1A") (Some "IW") (Some "A")
             (Some "20150309T173017") None None None)%string)
    "S1A__IW___A_20150309T173017"%string <> None
  /\ parse_datasetname
       (fun _ => Some (mkCaptures (Some "S1A") (Some "IW") (Some "A")
                         (Some "20150309T173017") None None None)%string)
       "S1A__IW___A_20150309T173017" false = Err TypeError
  /\ parse_datasetname
       (fun _ => Some (mkCaptures (Some "S1A") (Some "IW") (Some "A")
                         (Some "20150309T173017") None None None)%string)
       "S1A__IW___A_20150309T173017" true = Err TypeError.
Proof. split; [discriminate|]. split; reflexivity. Qed.

(** C8, amended: on a matching name whose processing-steps group took part
    in the match, the captured groups come back as the mapping [metadata]:
    the other groups as captured, an empty extensions group as None, the
    processing steps split at the underscores (pieces that join back to the
    capture and hold no underscore), or None when the capture is empty; the
    start is the captured string, or with [parse_date] the date-time that
    the token YYYYMMDDThhmmss encodes. *)
Theorem parse_datasetname_postprocess
  (product_match : string -> option captures) (name : string)
  (m : captures) (steps : string) :
  product_match name = Some m -> proc_steps m = Some steps ->
  parse_datasetname product_match name false
  = Ok (Some (metadata m steps (of_group (start m))))
  /\ (forall s t, start m = Some s -> decode s = Some t ->
        parse_datasetname product_match name true
        = Ok (Some (metadata m steps (VDate t))))
  /\ (extensions m = Some EmptyString ->
        get (metadata m steps (of_group (start m))) "extensions" = Ok VNone)
  /\ (steps = EmptyString ->
        get (metadata m steps (of_group (start m))) "proc_steps" = Ok VNone)
  /\ (steps <> EmptyString ->
        get (metadata m steps (of_group (start m))) "proc_steps"
        = Ok (VList (split "_" steps))
        /\ join "_" (split "_" steps) = steps
        /\ Forall (fun tag => ~ In "_"%char (list_ascii_of_string tag))
             (split "_" steps)).
Proof.
  intros Hm Hs. split; [|split; [|split; [|split]]].
  - now apply parse_datasetname_raw.
  - intros s t Hst Hd.
    rewrite (parse_datasetname_dated product_match name m steps s Hm Hs Hst).
    now rewrite (decode_strptime s t Hd).
  - intros He. unfold metadata. rewrite He. reflexivity.
  - intros ->. reflexivity.
  - intros Hne. split; [|split].
    + unfold metadata. apply String.eqb_neq in Hne. rewrite Hne. reflexivity.
    + apply join_split.
    + apply split_pieces.
Qed.

Lemma parse_datasetname_postprocess_witness :
  parse_datasetname documented_match documented_name false
  = Ok (Some [("sensor", VStr "S1A"); ("acquisition_mode", VStr "IW");
              ("orbit", VStr "A"); ("start", VStr "20150309T173017");
              ("extensions", VNone); ("polarization", VStr "VV");
              ("proc_steps", VList ["grd"; "mli"; "geo"; "norm"; "db"])]%string)
  /\ parse_datasetname documented_match documented_name true
     = Ok (Some [("sensor", VStr "S1A"); ("acquisition_mode", VStr "IW");
                 ("orbit", VStr "A");
                 ("start", VDate (mkDatetime 2015 3 9 17 30 17));
                 ("extensions", VNone); ("polarization", VStr "VV");
                 ("proc_steps", VList ["grd"; "mli"; "geo"; "norm"; "db"])]%string).
Proof.
  destruct (parse_datasetname_postprocess documented_match documented_name
              (mkCaptures (Some "S1A") (Some "IW") (Some "A")
                 (Some "20150309T173017") (Some EmptyString) (Some "VV")
                 (Some "grd_mli_geo_norm_db"))%string
              "grd_mli_geo_norm_db"%string eq_refl eq_refl)
    as (Hraw & Hdated & _).
  split; [exact Hraw|].
  exact (Hdated "20150309T173017"%string (mkDatetime 2015 3 9 17 30 17)
           eq_refl eq_refl).
Defined.

(** * find_datasets: the claims *)

(** C1: the documented product has sensor S1A, yet a search for sensor S1B
    and polarization VV selects it.  Each keyword argument overwrites the
    verdict of the one before, so only the last constraint decides. *)
Theorem find_datasets_keeps_mismatch :
  find_datasets documented_match (fun _ => [documented_name]) "dir"
    [("sensor", Exactly (VStr "S1B")); ("polarization", Exactly (VStr "VV"))]%string
  = Ok [documented_name]
  /\ exists meta,
       parse_datasetname documented_match documented_name false = Ok (Some meta)
       /\ get meta "sensor" = Ok (VStr "S1A")
       /\ value_eqb (VStr "S1A") (VStr "S1B") = false.
Proof.
  split; [reflexivity|].
  eexists. split; [reflexivity|]. split; reflexivity.
Qed.

(** C2, as stated, fails: with no file found the unknown key is never
    looked up, and the call returns the empty list. *)
Lemma find_datasets_unknown_key_no_files :
  ~ In "bogus_key"%string metadata_keys
  /\ find_datasets documented_match (fun _ => []) "dir"
       [("bogus_key", Exactly (VStr "x"))]%string = Ok [].
Proof.
  split; [|reflexivity].
  simpl. intros H.
  repeat (destruct H as [H|H]; [discriminate H|]). exact H.
Qed.

(** C2, amended: when the finder returns at least one file and the first
    one parses to a mapping, a constraint key outside the seven metadata
    keys makes the call fail with KeyError. *)
Theorem find_datasets_unknown_key
  (product_match : string -> option captures) (finder : string -> list string)
  (directory : string) (kwargs : list (string * constraint))
  (file : string) (files : list string) (meta : dict)
  (key : string) (c : constraint) :
  finder directory = file :: files ->
  parse_datasetname product_match file false = Ok (Some meta) ->
  In (key, c) kwargs -> ~ In key metadata_keys ->
  find_datasets product_match finder directory kwargs = Err KeyError.
Proof.
  intros Hf Hp Hin Hkey. unfold find_datasets. rewrite Hf.
  cbn [for_each]. rewrite Hp. cbn [bind].
  rewrite (constraints_unknown_key meta kwargs key c true Hin).
  - reflexivity.
  - apply get_unknown.
    now rewrite (parse_datasetname_keys product_match file meta Hp).
Qed.

Lemma find_datasets_unknown_key_witness :
  find_datasets documented_match (fun _ => [documented_name]) "dir"
    [("bogus_key", Exactly (VStr "x"))]%string = Err KeyError.
Proof.
  apply (find_datasets_unknown_key documented_match
           (fun _ => [documented_name]) "dir"%string
           [("bogus_key", Exactly (VStr "x"))]%string
           documented_name []
           [("sensor", VStr "S1A"); ("acquisition_mode", VStr "IW");
            ("orbit", VStr "A"); ("start", VStr "20150309T173017");
            ("extensions", VNone); ("polarization", VStr "VV");
            ("proc_steps", VList ["grd"; "mli"; "geo"; "norm"; "db"])]%string
           "bogus_key"%string (Exactly (VStr "x"))).
  - reflexivity.
  - reflexivity.
  - left. reflexivity.
  - simpl. intros H.
    repeat (destruct H as [H|H]; [discriminate H|]). exact H.
Defined.

(** * Part four: further properties of the code *)

(** * More on groupbyTime *)

Section RegroupFacts.

Context {A : Type}.
Variable function : A -> Z.
Variable time : Z.

Lemma regroup_head (x : A) (l : list A) :
  exists g gs, regroup function time (x :: l) = (x :: g) :: gs.
Proof.
  revert x. induction l as [|y l IH]; intros x.
  - exists [], []. reflexivity.
  - destruct (IH y) as [g [gs E]]. cbn [regroup]. cbn [regroup] in E.
    rewrite E. destruct (near function time y x).
    + exists (y :: g), gs. reflexivity.
    + exists [], ((y :: g) :: gs). reflexivity.
Qed.

Lemma regroup_well_grouped (l : list A) :
  well_grouped function time (regroup function time l) l.
Proof.
  induction l as [|x l IH].
  - split; constructor.
  - destruct l as [|y l].
    + split; simpl; repeat constructor. discriminate.
    + destruct (regroup_head y l) as [g [gs E]].
      change (regroup function time (x :: y :: l))
        with (match regroup function time (y :: l) with
              | g :: gs => if near function time y x then (x :: g) :: gs
                           else [x] :: g :: gs
              | [] => [[x]]
              end).
      rewrite E in *. destruct IH as [Hc Hn Hw Hb].
      apply Forall_cons_iff in Hn as [Hg Hn].
      apply Forall_cons_iff in Hw as [Hcg Hw].
      destruct (near function time y x) eqn:En.
      * apply near_close in En. split.
        -- simpl in *. now rewrite Hc.
        -- constructor; [discriminate | exact Hn].
        -- constructor; [|exact Hw]. constructor; [exact Hcg|].
           constructor. exact En.
        -- apply Sorted_inv in Hb as [Hb Hhd]. constructor; [exact Hb|].
           destruct gs as [|h gs]; constructor. apply HdRel_inv in Hhd.
           intros a b Ha Hb0. apply Hhd; [|exact Hb0].
           now rewrite py_last_cons in Ha.
      * assert (Hfar : ~ close function time x y).
        { intros H. apply near_close in H. congruence. }
        split.
        -- simpl in *. now rewrite Hc.
        -- constructor; [discriminate|]. constructor; assumption.
        -- constructor; [repeat constructor|]. constructor; assumption.
        -- constructor; [exact Hb|]. constructor.
           intros a b Ha Hb0. simpl in Ha, Hb0.
           inversion Ha; inversion Hb0; subst. exact Hfar.
Qed.

Lemma regroup_length (l : list A) :
  l <> [] ->
  List.length (regroup function time l) = S (breaks function time l).
Proof.
  induction l as [|x l IH]; intros Hne; [contradiction|].
  destruct l as [|y l]; [reflexivity|].
  destruct (regroup_head y l) as [g [gs E]].
  change (regroup function time (x :: y :: l))
    with (match regroup function time (y :: l) with
          | g :: gs => if near function time y x then (x :: g) :: gs
                       else [x] :: g :: gs
          | [] => [[x]]
          end).
  change (breaks function time (x :: y :: l))
    with ((if near function time y x then 0 else 1)
          + breaks function time (y :: l))%nat.
  specialize (IH ltac:(discriminate)). rewrite E in *.
  destruct (near function time y x); simpl in *; lia.
Qed.

(** The loop of [groupbyTime] builds [regroup] of the sorted items. *)
Lemma groupbyTime_regroup (images : list A) :
  images <> [] ->
  groupbyTime images function time
  = Ok (map unwrap (regroup function time (sorted images function))).
Proof.
  intros Hne.
  destruct (groupbyTime_groups function time images Hne) as [gs [E [_ Hwg]]].
  rewrite E. do 2 f_equal.
  apply (well_grouped_unique function time gs _ (sorted images function) Hwg).
  apply regroup_well_grouped.
Qed.

Lemma breaks_bound (l : list A) :
  (S (breaks function time l) <= Nat.max 1 (List.length l))%nat.
Proof.
  induction l as [|x l IH]; [simpl; lia|].
  destruct l as [|y l]; [simpl; lia|].
  change (breaks function time (x :: y :: l))
    with ((if near function time y x then 0 else 1)
          + breaks function time (y :: l))%nat.
  destruct (near function time y x); simpl in *; lia.
Qed.

End RegroupFacts.

Section ThresholdFacts.

Context {A : Type}.
Variable function : A -> Z.

Lemma near_threshold (t1 t2 : Z) (x y : A) :
  t1 <= t2 -> near function t1 y x = true -> near function t2 y x = true.
Proof.
  unfold near. rewrite !andb_true_iff, !Z.ltb_lt, !Z.leb_le. lia.
Qed.

Lemma breaks_threshold (t1 t2 : Z) (l : list A) :
  t1 <= t2 -> (breaks function t2 l <= breaks function t1 l)%nat.
Proof.
  intros Ht. induction l as [|x l IH]; [simpl; lia|].
  destruct l as [|y l]; [simpl; lia|].
  change (breaks function t2 (x :: y :: l))
    with ((if near function t2 y x then 0 else 1)
          + breaks function t2 (y :: l))%nat.
  change (breaks function t1 (x :: y :: l))
    with ((if near function t1 y x then 0 else 1)
          + breaks function t1 (y :: l))%nat.
  destruct (near function t1 y x) eqn:E1.
  - rewrite (near_threshold t1 t2 x y Ht E1). lia.
  - destruct (near function t2 y x); lia.
Qed.

Lemma near_never (time : Z) (x y : A) :
  time <= 0 -> near function time y x = false.
Proof.
  intros Ht. unfold near.
  destruct (0 <? Z.abs (function y - function x)) eqn:E1; [|reflexivity].
  apply Z.ltb_lt in E1. simpl. apply Z.leb_gt. lia.
Qed.

Lemma regroup_singletons (time : Z) (l : list A) :
  time <= 0 -> regroup function time l = map (fun x => [x]) l.
Proof.
  intros Ht. induction l as [|x l IH]; [reflexivity|].
  destruct l as [|y l]; [reflexivity|].
  change (regroup function time (x :: y :: l))
    with (match regroup function time (y :: l) with
          | g :: gs => if near function time y x then (x :: g) :: gs
                       else [x] :: g :: gs
          | [] => [[x]]
          end).
  rewrite IH, (near_never time x y Ht). reflexivity.
Qed.

(** A list whose times go strictly up is its own sort. *)
Lemma sorted_increasing (l : list A) :
  Sorted (fun x y => function x < function y) l -> sorted l function = l.
Proof.
  induction l as [|x l IH]; intros H; [reflexivity|].
  apply Sorted_inv in H as [H Hhd]. simpl. fold (sorted l function).
  rewrite (IH H). destruct l as [|y l]; [reflexivity|].
  apply HdRel_inv in Hhd. simpl.
  destruct (function y <? function x) eqn:E; [|reflexivity].
  apply Z.ltb_lt in E. lia.
Qed.

End ThresholdFacts.

(** * groupbyTime: further properties *)

(** X1: items that share a time value come out in the order they came in:
    for every time value, the items of that time read off the returned
    groups are the items of that time of the input, in input order. *)
Theorem groupbyTime_keeps_ties_in_order {A : Type} (images : list A)
  (function : A -> Z) (time : Z) :
  images <> [] ->
  exists out : list (entry A),
    groupbyTime images function time = Ok out
    /\ forall k : Z,
         filter (fun a => function a =? k) (concat (map members out))
         = filter (fun a => function a =? k) images.
Proof.
  intros Hne.
  destruct (groupbyTime_groups function time images Hne)
    as [gs [E [_ [Hc _ _ _]]]].
  exists (map unwrap gs). split; [exact E|]. intros k.
  rewrite concat_members, Hc. apply sorted_stable.
Qed.

Lemma groupbyTime_keeps_ties_in_order_witness :
  exists out : list (entry (string * Z)),
    groupbyTime [("b", 7); ("c", 3); ("a", 7)]%string snd 1 = Ok out
    /\ forall k : Z,
         filter (fun a => snd a =? k) (concat (map members out))
         = filter (fun a => snd a =? k) [("b", 7); ("c", 3); ("a", 7)]%string.
Proof.
  apply (groupbyTime_keeps_ties_in_order
           [("b", 7); ("c", 3); ("a", 7)]%string snd 1).
  discriminate.
Defined.

(** X2: with a threshold of zero or less nothing is grouped: every item
    of the non-empty input comes back as a bare item, in sorted order. *)
Theorem groupbyTime_zero_threshold {A : Type} (images : list A)
  (function : A -> Z) (time : Z) :
  images <> [] -> time <= 0 ->
  groupbyTime images function time = Ok (map Single (sorted images function)).
Proof.
  intros Hne Ht. rewrite (groupbyTime_regroup function time images Hne).
  rewrite (regroup_singletons function time _ Ht). now rewrite map_map.
Qed.

Lemma groupbyTime_zero_threshold_witness :
  groupbyTime [4; 2; 3] (fun x => x) 0 = Ok [Single 2; Single 3; Single 4].
Proof.
  apply (groupbyTime_zero_threshold [4; 2; 3] (fun x => x) 0).
  - discriminate.
  - lia.
Defined.

(** X3: groups are chained: when the times of two or more items go
    strictly up in steps of at most [time], all of them form one group,
    however far the last is from the first. *)
Theorem groupbyTime_chain {A : Type} (images : list A) (function : A -> Z)
  (time : Z) :
  (2 <= List.length images)%nat ->
  Sorted (fun x y => 0 < function y - function x <= time) images ->
  groupbyTime images function time = Ok [Many images].
Proof.
  intros Hlen Hch.
  assert (Hne : images <> []) by (destruct images; [simpl in Hlen; lia | discriminate]).
  assert (Hs : sorted images function = images).
  { apply sorted_increasing.
    clear Hlen Hne. induction Hch as [|x l Hl IH Hhd]; constructor; [exact IH|].
    destruct Hhd; constructor. lia. }
  destruct (groupbyTime_groups function time images Hne) as [gs [E [_ Hwg]]].
  rewrite Hs in Hwg.
  assert (Hone : gs = [images]).
  { apply (well_grouped_unique function time gs [images] images Hwg).
    split.
    - simpl. apply app_nil_r.
    - constructor; [exact Hne | constructor].
    - constructor; [|constructor].
      clear Hlen Hne Hs Hwg E.
      induction Hch as [|x l Hl IH Hhd]; constructor; [exact IH|].
      destruct Hhd; constructor. unfold close. lia.
    - repeat constructor. }
  rewrite E, Hone. simpl.
  destruct images as [|x [|y l]]; simpl in Hlen; try lia. reflexivity.
Qed.

Lemma groupbyTime_chain_witness :
  groupbyTime [0; 10; 20; 30] (fun x => x) 10 = Ok [Many [0; 10; 20; 30]].
Proof.
  apply (groupbyTime_chain [0; 10; 20; 30] (fun x => x) 10).
  - simpl. lia.
  - repeat constructor; lia.
Defined.

(** X5: the number of returned entries is one more than the number of
    neighbours in the sorted input that are not close; it is at most the
    number of items. *)
Theorem groupbyTime_count {A : Type} (images : list A) (function : A -> Z)
  (time : Z) :
  images <> [] ->
  exists out : list (entry A),
    groupbyTime images function time = Ok out
    /\ List.length out = S (breaks function time (sorted images function))
    /\ (List.length out <= List.length images)%nat.
Proof.
  intros Hne. rewrite (groupbyTime_regroup function time images Hne).
  eexists. split; [reflexivity|].
  assert (Hs : sorted images function <> []).
  { intros H. apply Hne. apply Permutation_nil. rewrite <- H.
    apply Permutation_sym, sorted_perm. }
  rewrite length_map, (regroup_length function time _ Hs).
  split; [reflexivity|].
  pose proof (breaks_bound function time (sorted images function)) as Hb.
  rewrite <- (Permutation_length (sorted_perm function images)) in Hb.
  destruct images; [contradiction|]. simpl in *. lia.
Qed.

Lemma groupbyTime_count_witness :
  exists out : list (entry Z),
    groupbyTime [5; 1; 2; 9; 1] (fun x => x) 3 = Ok out
    /\ List.length out = 3%nat
    /\ (List.length out <= 5)%nat.
Proof.
  apply (groupbyTime_count [5; 1; 2; 9; 1] (fun x => x) 3). discriminate.
Defined.

(** X6: a larger threshold never gives more entries. *)
Theorem groupbyTime_coarser {A : Type} (images : list A) (function : A -> Z)
  (time1 time2 : Z) :
  images <> [] -> time1 <= time2 ->
  exists out1 out2 : list (entry A),
    groupbyTime images function time1 = Ok out1
    /\ groupbyTime images function time2 = Ok out2
    /\ (List.length out2 <= List.length out1)%nat.
Proof.
  intros Hne Ht.
  rewrite (groupbyTime_regroup function time1 images Hne).
  rewrite (groupbyTime_regroup function time2 images Hne).
  do 2 eexists. split; [reflexivity|]. split; [reflexivity|].
  assert (Hs : sorted images function <> []).
  { intros H. apply Hne. apply Permutation_nil. rewrite <- H.
    apply Permutation_sym, sorted_perm. }
  rewrite !length_map, !(regroup_length function _ _ Hs).
  pose proof (breaks_threshold function time1 time2
                (sorted images function) Ht). lia.
Qed.

Lemma groupbyTime_coarser_witness :
  exists out1 out2 : list (entry Z),
    groupbyTime [5; 1; 2; 9; 1] (fun x => x) 1 = Ok out1
    /\ groupbyTime [5; 1; 2; 9; 1] (fun x => x) 4 = Ok out2
    /\ (List.length out2 <= List.length out1)%nat.
Proof.
  apply (groupbyTime_coarser [5; 1; 2; 9; 1] (fun x => x) 1 4).
  - discriminate.
  - lia.
Defined.

(** * The order of the calendar *)

Module CalendarOrder.

Import Datetime Calendar CalendarFacts.

Lemma year_length_bounds (y : Z) : 365 <= year_length y <= 366.
Proof. unfold year_length. destruct (leap_year y); lia. Qed.

Lemma days_before_year_grows (n : nat) (y : Z) :
  days_before_year y + 365 * Z.of_nat n <= days_before_year (y + Z.of_nat n).
Proof.
  induction n as [|n IH].
  - replace (y + Z.of_nat 0) with y by lia. lia.
  - replace (y + Z.of_nat (S n)) with (y + Z.of_nat n + 1) by lia.
    rewrite days_before_year_step.
    pose proof (year_length_bounds (y + Z.of_nat n)). lia.
Qed.

Lemma days_before_year_later (y1 y2 : Z) :
  y1 < y2 -> days_before_year y1 + year_length y1 <= days_before_year y2.
Proof.
  intros H. rewrite <- days_before_year_step.
  pose proof (days_before_year_grows (Z.to_nat (y2 - (y1 + 1))) (y1 + 1)) as G.
  rewrite Z2Nat.id in G by lia.
  replace (y1 + 1 + (y2 - (y1 + 1))) with y2 in G by lia. lia.
Qed.

Ltac months m H :=
  assert (H : m = 1 \/ m = 2 \/ m = 3 \/ m = 4 \/ m = 5 \/ m = 6 \/ m = 7
              \/ m = 8 \/ m = 9 \/ m = 10 \/ m = 11 \/ m = 12) by lia.

Lemma month_end (y m : Z) :
  1 <= m <= 12 ->
  0 <= days_before_month y m
  /\ days_before_month y m + month_length y m <= year_length y.
Proof.
  intros Hm. unfold days_before_month, year_length, month_length.
  rewrite is_leap_leap_year. months m H. clear Hm.
  repeat (destruct H as [H|H];
          [subst m; simpl; destruct (leap_year y); simpl; lia|]).
  subst m; simpl; destruct (leap_year y); simpl; lia.
Qed.

Lemma day_of_year_bounds (y m d : Z) :
  1 <= m <= 12 -> 1 <= d <= month_length y m ->
  1 <= days_before_month y m + d <= year_length y.
Proof. intros Hm Hd. pose proof (month_end y m Hm). lia. Qed.

Lemma days_before_month_later (y m1 m2 : Z) :
  1 <= m1 -> m1 < m2 -> m2 <= 12 ->
  days_before_month y m1 + month_length y m1 <= days_before_month y m2.
Proof.
  intros H1 H12 H2. unfold days_before_month, month_length.
  rewrite is_leap_leap_year. months m1 Ha. months m2 Hb. clear H1 H2.
  revert H12.
  repeat (destruct Ha as [Ha|Ha]; [subst m1|]); try subst m1;
    repeat (destruct Hb as [Hb|Hb]; [subst m2|]); try subst m2;
    intros H12; try lia; clear H12;
    simpl; destruct (leap_year y); simpl; lia.
Qed.

Lemma seconds_since_epoch_ordinal (t : datetime) :
  valid t = true ->
  seconds_since_epoch t
  = 86400 * (toordinal t - toordinal epoch)
    + (second t + 60 * minute t + 3600 * hour t).
Proof.
  intros H. unfold seconds_since_epoch. rewrite <- (ordinal_days t H). lia.
Qed.

(** An earlier date-time is fewer seconds away from the epoch. *)
Lemma seconds_since_epoch_earlier (a b : datetime) :
  valid a = true -> valid b = true -> earlier a b ->
  seconds_since_epoch a < seconds_since_epoch b.
Proof.
  intros Ha Hb He.
  rewrite (seconds_since_epoch_ordinal a Ha), (seconds_since_epoch_ordinal b Hb).
  apply valid_fields in Ha as (_ & Hma & Hda & Hha & Hmia & Hsa).
  apply valid_fields in Hb as (_ & Hmb & Hdb & Hhb & Hmib & Hsb).
  unfold toordinal, ymd2ord. unfold earlier in He. cbn [lex_lt] in He.
  pose proof (day_of_year_bounds (year a) (month a) (day a) Hma Hda).
  pose proof (day_of_year_bounds (year b) (month b) (day b) Hmb Hdb).
  destruct He as [Hy|[Hy He]].
  - pose proof (days_before_year_later (year a) (year b) Hy). lia.
  - rewrite Hy in *. destruct He as [Hm|[Hm He]].
    + pose proof (days_before_month_later (year b) (month a) (month b)
                    ltac:(lia) Hm ltac:(lia)). lia.
    + rewrite Hm in *. lia.
Qed.

Lemma earlier_or_equal (a b : datetime) : earlier a b \/ a = b \/ earlier b a.
Proof.
  destruct a as [ya ma da ha mia sa], b as [yb mb db hb mib sb].
  unfold earlier. cbn [lex_lt year month day hour minute second].
  destruct (Z.lt_trichotomy ya yb) as [?|[?|?]]; [tauto | subst | tauto].
  destruct (Z.lt_trichotomy ma mb) as [?|[?|?]]; [tauto | subst | tauto].
  destruct (Z.lt_trichotomy da db) as [?|[?|?]]; [tauto | subst | tauto].
  destruct (Z.lt_trichotomy ha hb) as [?|[?|?]]; [tauto | subst | tauto].
  destruct (Z.lt_trichotomy mia mib) as [?|[?|?]]; [tauto | subst | tauto].
  destruct (Z.lt_trichotomy sa sb) as [?|[?|?]]; [tauto | subst | tauto].
  tauto.
Qed.

Lemma seconds_since_epoch_order (a b : datetime) :
  valid a = true -> valid b = true ->
  (seconds_since_epoch a < seconds_since_epoch b <-> earlier a b).
Proof.
  intros Ha Hb. split; [|now apply seconds_since_epoch_earlier].
  intros H. destruct (earlier_or_equal a b) as [E|[E|E]]; [exact E| |].
  - subst. lia.
  - pose proof (seconds_since_epoch_earlier b a Hb Ha E). lia.
Qed.

Lemma seconds_since_epoch_same (a b : datetime) :
  valid a = true -> valid b = true ->
  seconds_since_epoch a = seconds_since_epoch b -> a = b.
Proof.
  intros Ha Hb H. destruct (earlier_or_equal a b) as [E|[E|E]]; [|exact E|].
  - pose proof (seconds_since_epoch_earlier a b Ha Hb E). lia.
  - pose proof (seconds_since_epoch_earlier b a Hb Ha E). lia.
Qed.

End CalendarOrder.

(** * Tokens *)

Module TokenOrder.

Import Re Datetime Stamp CalendarFacts StrptimeFacts TokenFacts RunFacts
  CalendarOrder.

Lemma code_inj (a b : ascii) : code a = code b -> a = b.
Proof.
  unfold code. intros H. apply N2Z.inj in H.
  rewrite <- (ascii_N_embedding a), <- (ascii_N_embedding b). now rewrite H.
Qed.

(** The fifteen characters behind a decoded token. *)
Lemma decode_inv (t : string) (dt : datetime) :
  decode t = Some dt ->
  exists y0 y1 y2 y3 m0 m1 d0 d1 sep h0 h1 mi0 mi1 s0 s1,
    list_ascii_of_string t
    = [y0; y1; y2; y3; m0; m1; d0; d1; sep; h0; h1; mi0; mi1; s0; s1]
    /\ forallb digit [y0; y1; y2; y3; m0; m1; d0; d1; h0; h1; mi0; mi1; s0; s1]
       = true
    /\ is_char "T" sep = true
    /\ dt = mkDatetime (number [y0; y1; y2; y3]) (number [m0; m1])
              (number [d0; d1]) (number [h0; h1]) (number [mi0; mi1])
              (number [s0; s1]).
Proof.
  unfold decode.
  destruct (list_ascii_of_string t)
    as [|y0 [|y1 [|y2 [|y3 [|m0 [|m1 [|d0 [|d1 [|sep [|h0 [|h1 [|mi0 [|mi1
        [|s0 [|s1 [|x l]]]]]]]]]]]]]]]]; try discriminate.
  destruct (forallb _ _ && _) eqn:E; [|discriminate].
  destruct (Calendar.valid _); [|discriminate].
  intros H. inversion H; subst dt. apply andb_true_iff in E as [E1 E2].
  exists y0, y1, y2, y3, m0, m1, d0, d1, sep, h0, h1, mi0, mi1, s0, s1.
  repeat split; assumption.
Qed.

Lemma decode_run (t : string) (dt : datetime) :
  decode t = Some dt -> String.length t = 15%nat /\ all_in token_class t.
Proof.
  intros H. apply decode_inv in H
    as (y0 & y1 & y2 & y3 & m0 & m1 & d0 & d1 & sep & h0 & h1 & mi0 & mi1
        & s0 & s1 & Et & Hd & Hs & _).
  split.
  - rewrite <- (string_of_list_ascii_of_string t), Et. reflexivity.
  - unfold all_in. rewrite Et. cbn [forallb] in Hd.
    repeat match goal with
           | H : _ && _ = true |- _ => apply andb_true_iff in H; destruct H
           end.
    unfold token_class, either.
    repeat constructor;
      solve [ match goal with H : digit ?c = true |- _ || _ = true =>
                change (in_range "0" "9" c) with (digit c); now rewrite H end
            | rewrite Hs; apply orb_true_r ].
Qed.

Ltac digit_bounds :=
  repeat match goal with
         | H : digit ?c = true |- _ =>
             assert (48 <= code c <= 57) by (clear - H; codes; bools; lia);
             clear H
         end.

(** A date-time of the calendar is written by one token only. *)
Lemma decode_same (t1 t2 : string) (dt : datetime) :
  decode t1 = Some dt -> decode t2 = Some dt -> t1 = t2.
Proof.
  intros H1 H2.
  apply decode_inv in H1
    as (y0 & y1 & y2 & y3 & m0 & m1 & d0 & d1 & sep & h0 & h1 & mi0 & mi1
        & s0 & s1 & Et & Hd & Hs & E).
  apply decode_inv in H2
    as (y0' & y1' & y2' & y3' & m0' & m1' & d0' & d1' & sep' & h0' & h1'
        & mi0' & mi1' & s0' & s1' & Et' & Hd' & Hs' & E').
  rewrite <- (string_of_list_ascii_of_string t1),
    <- (string_of_list_ascii_of_string t2), Et, Et'.
  rewrite E in E'. clear E Et Et'. inversion E' as [[Ey Em Ed Eh Emi Es]].
  clear E'. unfold number in *. cbn [fold_left] in *.
  cbn [forallb] in Hd, Hd'.
  repeat match goal with
         | H : _ && _ = true |- _ => apply andb_true_iff in H; destruct H
         end.
  assert (sep = sep').
  { apply code_inj. clear - Hs Hs'. codes. bools. lia. }
  digit_bounds.
  assert (y0 = y0' /\ y1 = y1' /\ y2 = y2' /\ y3 = y3')
    as (-> & -> & -> & ->) by (repeat split; apply code_inj; lia).
  assert (m0 = m0' /\ m1 = m1') as (-> & ->)
    by (repeat split; apply code_inj; lia).
  assert (d0 = d0' /\ d1 = d1') as (-> & ->)
    by (repeat split; apply code_inj; lia).
  assert (h0 = h0' /\ h1 = h1') as (-> & ->)
    by (repeat split; apply code_inj; lia).
  assert (mi0 = mi0' /\ mi1 = mi1') as (-> & ->)
    by (repeat split; apply code_inj; lia).
  assert (s0 = s0' /\ s1 = s1') as (-> & ->)
    by (repeat split; apply code_inj; lia).
  subst. reflexivity.
Qed.

End TokenOrder.

Module PrefixFacts.

Import Re Datetime Stamp RunFacts TokenOrder.

(** Two ways to cut one string: the shorter front is a front of the longer. *)
Lemma app_split (a b c d : string) :
  (a ++ b = c ++ d)%string -> (String.length c <= String.length a)%nat ->
  exists u, a = (c ++ u)%string /\ d = (u ++ b)%string.
Proof.
  revert a. induction c as [|x c IH]; intros a E L; simpl in *.
  - exists a. auto.
  - destruct a as [|y a]; [simpl in L; lia|]. simpl in *.
    inversion E; subst y. destruct (IH a H1) as [u [-> ->]]; [lia|].
    exists u. auto.
Qed.

Lemma last_char_in (u : string) (front : string) (c : ascii) (l : string) :
  (l ++ u = front ++ String c EmptyString)%string -> u <> EmptyString ->
  In c (list_ascii_of_string u).
Proof.
  intros E Hu.
  assert (L : (String.length front <= String.length l
               \/ String.length l <= String.length front)%nat) by lia.
  destruct L as [L|L].
  - destruct (app_split l u front (String c EmptyString) E L) as [w [-> Ew]].
    destruct w as [|x w]; simpl in Ew.
    + subst u. simpl. auto.
    + inversion Ew. destruct w; [|discriminate].
      simpl in *. subst u. contradiction.
  - destruct (app_split front (String c EmptyString) l u (eq_sym E) L)
      as [w [-> Ew]].
    subst u. rewrite chars_app. apply in_or_app. right. simpl. auto.
Qed.

(** A token behind a front that holds no run and ends outside the class
    is the leftmost run. *)
Lemma first_run_behind (p : cls) (n : nat) (pre tok post : string) :
  String.length tok = n -> all_in p tok ->
  ~ has_run p n pre ->
  (pre = EmptyString
   \/ exists front c, pre = (front ++ String c EmptyString)%string
                      /\ p c = false) ->
  first_run p n (pre ++ tok ++ post) tok.
Proof.
  intros L Hall Hno Hend. exists pre, post.
  split; [reflexivity|]. split; [exact L|]. split; [exact Hall|].
  intros pre' t' post' E L' Hall'.
  destruct (Nat.le_gt_cases (String.length pre) (String.length pre'))
    as [Hle|Hgt]; [exact Hle|]. exfalso.
  destruct (app_split pre (tok ++ post) pre' (t' ++ post') E ltac:(lia))
    as [u [Epre Eu]].
  assert (Hu : u <> EmptyString).
  { intros ->. rewrite Epre, length_app_string in Hgt. simpl in Hgt. lia. }
  destruct (Nat.le_gt_cases (String.length t') (String.length u)) as [Htu|Htu].
  - destruct (app_split u (tok ++ post) t' post' (eq_sym Eu) Htu)
      as [w [Ew _]].
    apply Hno. exists pre', t', w. rewrite Epre, Ew. auto.
  - destruct (app_split t' post' u (tok ++ post) Eu ltac:(lia)) as [w [Ew _]].
    destruct Hend as [->|(front & c & Ef & Hc)].
    + simpl in Hgt. lia.
    + rewrite Ef in Epre. symmetry in Epre.
      pose proof (last_char_in u front c pre' Epre Hu) as Hin.
      unfold all_in in Hall'. rewrite Ew, chars_app in Hall'.
      apply Forall_app in Hall' as [Hall' _].
      rewrite Forall_forall in Hall'. specialize (Hall' c Hin). congruence.
Qed.

End PrefixFacts.

(** * seconds: further properties *)

Import Re Datetime Stamp CalendarFacts RunFacts CalendarOrder TokenOrder
  PrefixFacts.

(** X7: [seconds] orders file names as the calendar orders their tokens:
    with valid leftmost tokens, the value of one name is below that of
    another exactly when its date-time is the earlier one. *)
Theorem seconds_order (f1 f2 t1 t2 : string) (a b : datetime) :
  first_run token_class 15 f1 t1 -> decode t1 = Some a ->
  first_run token_class 15 f2 t2 -> decode t2 = Some b ->
  exists z1 z2, seconds f1 = Ok z1 /\ seconds f2 = Ok z2
                /\ (z1 < z2 <-> earlier a b).
Proof.
  intros R1 D1 R2 D2. rewrite !seconds_by_leftmost_run.
  apply leftmost_run_spec in R1, R2. rewrite R1, R2, D1, D2.
  do 2 eexists. split; [reflexivity|]. split; [reflexivity|].
  apply seconds_since_epoch_order; eapply decode_valid; eassumption.
Qed.

Lemma seconds_order_witness :
  exists z1 z2,
    seconds "a_20150309T173017.tif" = Ok z1
    /\ seconds "b_20150310T000000.tif" = Ok z2
    /\ (z1 < z2 <-> earlier (mkDatetime 2015 3 9 17 30 17)
                            (mkDatetime 2015 3 10 0 0 0)).
Proof.
  apply (seconds_order "a_20150309T173017.tif" "b_20150310T000000.tif"
           "20150309T173017" "20150310T000000").
  - apply leftmost_run_spec. reflexivity.
  - reflexivity.
  - apply leftmost_run_spec. reflexivity.
  - reflexivity.
Defined.

(** X8: two names with valid leftmost tokens get the same value only when
    the tokens are the same text. *)
Theorem seconds_same_token (f1 f2 t1 t2 : string) (a b : datetime) :
  first_run token_class 15 f1 t1 -> decode t1 = Some a ->
  first_run token_class 15 f2 t2 -> decode t2 = Some b ->
  seconds f1 = seconds f2 -> t1 = t2.
Proof.
  intros R1 D1 R2 D2. rewrite !seconds_by_leftmost_run.
  apply leftmost_run_spec in R1, R2. rewrite R1, R2, D1, D2.
  intros H. inversion H as [Hs].
  apply seconds_since_epoch_same in Hs;
    [| eapply decode_valid; eassumption | eapply decode_valid; eassumption].
  subst b. exact (decode_same t1 t2 a D1 D2).
Qed.

Lemma seconds_same_token_witness :
  "20150309T173017"%string = "20150309T173017"%string.
Proof.
  apply (seconds_same_token "a_20150309T173017.tif" "b_20150309T173017_VV"
           "20150309T173017" "20150309T173017"
           (mkDatetime 2015 3 9 17 30 17) (mkDatetime 2015 3 9 17 30 17)).
  - apply leftmost_run_spec. reflexivity.
  - reflexivity.
  - apply leftmost_run_spec. reflexivity.
  - reflexivity.
  - reflexivity.
Defined.

(** X9: the value is negative exactly for a token before the year 1900,
    and zero exactly for the token of the epoch. *)
Theorem seconds_sign (filename token : string) (dt : datetime) :
  first_run token_class 15 filename token -> decode token = Some dt ->
  exists z, seconds filename = Ok z
            /\ (z < 0 <-> year dt < 1900)
            /\ (z = 0 <-> dt = Calendar.epoch).
Proof.
  intros R D. rewrite seconds_by_leftmost_run.
  apply leftmost_run_spec in R. rewrite R, D.
  eexists. split; [reflexivity|].
  pose proof (decode_valid token dt D) as Hv.
  assert (Hve : Calendar.valid Calendar.epoch = true) by reflexivity.
  change 0 with (Calendar.seconds_since_epoch Calendar.epoch).
  split.
  - rewrite (seconds_since_epoch_order dt Calendar.epoch Hv Hve).
    apply valid_fields in Hv. unfold earlier, Calendar.epoch.
    cbn [lex_lt year month day hour minute second]. lia.
  - split.
    + now apply seconds_since_epoch_same.
    + now intros ->.
Qed.

Lemma seconds_sign_witness :
  exists z, seconds "x_18991231T235959" = Ok z
            /\ (z < 0 <-> 1899 < 1900)
            /\ (z = 0 <-> mkDatetime 1899 12 31 23 59 59 = Calendar.epoch).
Proof.
  apply (seconds_sign "x_18991231T235959" "18991231T235959"
           (mkDatetime 1899 12 31 23 59 59)).
  - apply leftmost_run_spec. reflexivity.
  - reflexivity.
Defined.

(** X10: a valid token is found whatever follows it, provided the text in
    front of it holds no run of fifteen class characters and is empty or
    ends in a character outside the class, such as an underscore. *)
Theorem seconds_after_separator (pre token post : string) (dt : datetime) :
  decode token = Some dt ->
  ~ has_run token_class 15 pre ->
  (pre = EmptyString
   \/ exists front c, pre = (front ++ String c EmptyString)%string
                      /\ token_class c = false) ->
  seconds (pre ++ token ++ post) = Ok (Calendar.seconds_since_epoch dt).
Proof.
  intros D Hno Hend. destruct (decode_run token dt D) as [L Hall].
  pose proof (first_run_behind token_class 15 pre token post L Hall Hno Hend)
    as R.
  rewrite seconds_by_leftmost_run.
  apply leftmost_run_spec in R. now rewrite R, D.
Qed.

Lemma seconds_after_separator_witness :
  seconds ("S1A__IW___A_" ++ "20150309T173017" ++ "_VV_grd_mli_geo_norm_db.tif")
  = Ok 3634911017.
Proof.
  apply (seconds_after_separator "S1A__IW___A_" "20150309T173017"
           "_VV_grd_mli_geo_norm_db.tif" (mkDatetime 2015 3 9 17 30 17)).
  - reflexivity.
  - apply leftmost_run_none_spec. reflexivity.
  - right. exists "S1A__IW___A"%string, "_"%char. split; reflexivity.
Defined.

(** * More on the error monad *)

Lemma for_each_app {S B : Type} (body : S -> B -> result S) (l1 l2 : list B)
  (s : S) :
  for_each body (l1 ++ l2) s
  = bind (for_each body l1 s) (fun s' => for_each body l2 s').
Proof.
  revert s. induction l1 as [|b l1 IH]; intros s; simpl; [reflexivity|].
  destruct (body s b); simpl; [apply IH | reflexivity].
Qed.

Lemma for_each_ext {S B : Type} (body1 body2 : S -> B -> result S)
  (l : list B) (s : S) :
  (forall s b, body1 s b = body2 s b) ->
  for_each body1 l s = for_each body2 l s.
Proof.
  intros H. revert s. induction l as [|b l IH]; intros s; simpl; [reflexivity|].
  rewrite H. destruct (body2 s b); simpl; [apply IH | reflexivity].
Qed.

(** * More on parse_datasetname and find_datasets *)

Section ProductMore.

Import PyFacts Datetime Stamp TokenFacts.

Variable product_match : string -> option captures.
Variable finder : string -> list string.

Lemma parse_datasetname_start_missing (name : string) (m : captures)
  (steps : string) :
  product_match name = Some m -> proc_steps m = Some steps ->
  start m = None ->
  parse_datasetname product_match name true = Err TypeError.
Proof.
  intros Hm Hs Hst. unfold parse_datasetname, groupdict.
  rewrite Hm, Hs, Hst. cbn [get String.eqb Ascii.eqb Bool.eqb bind of_group].
  destruct (value_eqb _ _);
    cbn [set get String.eqb Ascii.eqb Bool.eqb bind];
    destruct (0 <? Z.of_nat (String.length steps));
    cbn [set get String.eqb Ascii.eqb Bool.eqb bind]; reflexivity.
Qed.

(** Every mapping the parser returns is a [metadata]. *)
Lemma parse_datasetname_form (name : string) (parse_date : bool) (out : dict) :
  parse_datasetname product_match name parse_date = Ok (Some out) ->
  exists m steps st,
    product_match name = Some m /\ proc_steps m = Some steps
    /\ out = metadata m steps st.
Proof.
  intros H. destruct (product_match name) as [m|] eqn:Em.
  - destruct (proc_steps m) as [steps|] eqn:Es.
    + exists m, steps. destruct parse_date.
      * destruct (start m) as [s|] eqn:Est.
        -- rewrite (parse_datasetname_dated product_match name m steps s
                      Em Es Est) in H.
           destruct (strptime s) as [t|e]; [|discriminate]. simpl in H.
           exists (VDate t). inversion H. auto.
        -- rewrite (parse_datasetname_start_missing name m steps Em Es Est)
            in H. discriminate.
      * rewrite (parse_datasetname_raw product_match name m steps Em Es) in H.
        exists (of_group (start m)). inversion H. auto.
    + rewrite (parse_datasetname_steps_missing product_match name m
                 parse_date Em Es) in H. discriminate.
  - unfold parse_datasetname in H. rewrite Em in H. discriminate.
Qed.

Lemma metadata_get (m : captures) (steps : string) (st : value) (key : string) :
  In key metadata_keys -> exists v, get (metadata m steps st) key = Ok v.
Proof.
  intros H. simpl in H.
  repeat (destruct H as [<-|H]; [eexists; reflexivity|]). contradiction.
Qed.

Lemma files_loop (kwargs : list (string * constraint)) (files acc sel : list string) :
  for_each
    (fun selection file =>
       meta <- parse_datasetname product_match file false ;;
       matched <- for_each (check_constraint meta) kwargs true ;;
       Ok (if matched : bool then selection ++ [file] else selection))
    files acc = Ok sel ->
  sel = acc ++ filter (kept product_match kwargs) files.
Proof.
  revert acc. induction files as [|f files IH]; intros acc H; simpl in H.
  - inversion H. simpl. now rewrite app_nil_r.
  - cbn [filter]. unfold kept at 1.
    destruct (parse_datasetname product_match f false) as [meta|e];
      [|discriminate]. simpl in H.
    destruct (for_each (check_constraint meta) kwargs true) as [b|e];
      [|discriminate]. simpl in H.
    apply IH in H. rewrite H.
    destruct b; [now rewrite <- app_assoc | reflexivity].
Qed.

End ProductMore.

Import Re Datetime Stamp CalendarFacts RunFacts PyFacts TokenFacts.

(** * parse_datasetname: further properties *)

(** X12: without date parsing the parser raises only when the name matches
    and the processing-steps group took no part in the match, and then it
    raises TypeError. *)
Theorem parse_datasetname_raw_failure
  (product_match : string -> option captures) (name : string) (e : exn) :
  parse_datasetname product_match name false = Err e <->
  e = TypeError
  /\ exists m, product_match name = Some m /\ proc_steps m = None.
Proof.
  split.
  - intros H. destruct (product_match name) as [m|] eqn:Em.
    + destruct (proc_steps m) as [steps|] eqn:Es.
      * rewrite (parse_datasetname_raw product_match name m steps Em Es) in H.
        discriminate.
      * rewrite (parse_datasetname_steps_missing product_match name m false
                   Em Es) in H.
        inversion H. split; [reflexivity|]. exists m. auto.
    + unfold parse_datasetname in H. rewrite Em in H. discriminate.
  - intros [-> (m & Em & Es)].
    exact (parse_datasetname_steps_missing product_match name m false Em Es).
Qed.



(** X14: in a returned mapping the extensions are never the empty string,
    and the processing steps are never a string nor an empty list: they
    are None or a list of at least one tag. *)
Theorem parse_datasetname_no_empty
  (product_match : string -> option captures) (name : string)
  (parse_date : bool) (out : dict) :
  parse_datasetname product_match name parse_date = Ok (Some out) ->
  get out "extensions" <> Ok (VStr EmptyString)
  /\ get out "proc_steps" <> Ok (VList [])
  /\ forall s, get out "proc_steps" <> Ok (VStr s).
Proof.
  intros H.
  apply parse_datasetname_form in H as (m & steps & st & _ & _ & ->).
  unfold metadata. cbn [get String.eqb Ascii.eqb Bool.eqb].
  split; [|split].
  - destruct (extensions m) as [e|]; [|discriminate].
    destruct (String.eqb e EmptyString) eqn:E; [discriminate|].
    apply String.eqb_neq in E. congruence.
  - destruct (String.eqb steps EmptyString); [discriminate|].
    intros H. inversion H as [Hl].
    exact (split_nonempty "_" steps Hl).
  - intros s. destruct (String.eqb steps EmptyString); discriminate.
Qed.

Lemma parse_datasetname_no_empty_witness :
  get [("sensor", VStr "S1A"); ("acquisition_mode", VStr "IW");
       ("orbit", VStr "A"); ("start", VStr "20150309T173017");
       ("extensions", VNone); ("polarization", VStr "VV");
       ("proc_steps", VList ["grd"; "mli"; "geo"; "norm"; "db"])]%string
    "extensions" <> Ok (VStr EmptyString)
  /\ get [("sensor", VStr "S1A"); ("acquisition_mode", VStr "IW");
          ("orbit", VStr "A"); ("start", VStr "20150309T173017");
          ("extensions", VNone); ("polarization", VStr "VV");
          ("proc_steps", VList ["grd"; "mli"; "geo"; "norm"; "db"])]%string
       "proc_steps" <> Ok (VList [])
  /\ forall s,
       get [("sensor", VStr "S1A"); ("acquisition_mode", VStr "IW");
            ("orbit", VStr "A"); ("start", VStr "20150309T173017");
            ("extensions", VNone); ("polarization", VStr "VV");
            ("proc_steps", VList ["grd"; "mli"; "geo"; "norm"; "db"])]%string
         "proc_steps" <> Ok (VStr s).
Proof.
  apply (parse_datasetname_no_empty documented_match documented_name false).
  reflexivity.
Defined.

(** * find_datasets: further properties *)

(** X15: without constraints every file of the finder is returned, in the
    finder's order, provided no file makes the parser raise. *)
Theorem find_datasets_unconstrained
  (product_match : string -> option captures) (finder : string -> list string)
  (directory : string) :
  (forall file, In file (finder directory) ->
     exists meta, parse_datasetname product_match file false = Ok meta) ->
  find_datasets product_match finder directory [] = Ok (finder directory).
Proof.
  intros H. unfold find_datasets.
  assert (G : forall files acc,
             (forall file, In file files ->
                exists meta, parse_datasetname product_match file false = Ok meta) ->
             for_each
               (fun selection file =>
                  meta <- parse_datasetname product_match file false ;;
                  matched <- for_each (check_constraint meta) [] true ;;
                  Ok (if matched : bool then selection ++ [file] else selection))
               files acc = Ok (acc ++ files)).
  { induction files as [|f files IH]; intros acc Hf; simpl.
    - now rewrite app_nil_r.
    - destruct (Hf f (or_introl eq_refl)) as [meta Em]. rewrite Em. simpl.
      rewrite IH by (intros; apply Hf; now right).
      now rewrite <- app_assoc. }
  exact (G (finder directory) [] H).
Qed.

Lemma find_datasets_unconstrained_witness :
  find_datasets documented_match
    (fun _ => ["random.txt"; documented_name]%string)
    "dir" [] = Ok ["random.txt"; documented_name]%string.
Proof.
  apply (find_datasets_unconstrained documented_match
           (fun _ => ["random.txt"; documented_name]%string) "dir").
  intros file [<-|[<-|[]]]; eexists; reflexivity.
Defined.

(** X16: whatever the constraints, a returned selection is cut out of the
    finder's list by a test on the single file: no file is added, none is
    repeated or moved. *)
Theorem find_datasets_filters
  (product_match : string -> option captures) (finder : string -> list string)
  (directory : string) (kwargs : list (string * constraint))
  (selection : list string) :
  find_datasets product_match finder directory kwargs = Ok selection ->
  selection = filter (kept product_match kwargs) (finder directory).
Proof.
  intros H. unfold find_datasets in H.
  exact (files_loop product_match kwargs (finder directory) [] selection H).
Qed.

Lemma find_datasets_filters_witness :
  [documented_name]
  = filter (kept documented_match [("polarization", Exactly (VStr "VV"))]%string)
      [documented_name].
Proof.
  apply (find_datasets_filters documented_match (fun _ => [documented_name])
           "dir"%string
           [("polarization", Exactly (VStr "VV"))]%string
           [documented_name]).
  reflexivity.
Defined.

(** X18: a file of the finder that the product pattern does not match
    makes the call raise TypeError as soon as there is a constraint. *)
Theorem find_datasets_unmatched_file
  (product_match : string -> option captures) (finder : string -> list string)
  (directory : string) (kwargs : list (string * constraint))
  (file : string) (files : list string) :
  finder directory = file :: files ->
  product_match file = None ->
  kwargs <> [] ->
  find_datasets product_match finder directory kwargs = Err TypeError.
Proof.
  intros Hf Hm Hk. unfold find_datasets. rewrite Hf. cbn [for_each].
  unfold parse_datasetname. rewrite Hm. cbn [bind].
  destruct kwargs as [|kv kwargs]; [contradiction|]. reflexivity.
Qed.

Lemma find_datasets_unmatched_file_witness :
  find_datasets documented_match
    (fun _ => ["random.txt"; documented_name]%string)
    "dir" [("sensor", Exactly (VStr "S1A"))]%string = Err TypeError.
Proof.
  apply (find_datasets_unmatched_file documented_match
           (fun _ => ["random.txt"; documented_name]%string) "dir"
           [("sensor", Exactly (VStr "S1A"))]%string
           "random.txt" [documented_name]).
  - reflexivity.
  - reflexivity.
  - discriminate.
Defined.

(** X17: with one constraint on a metadata key, and every file of the
    finder parsing to a mapping, the call returns exactly the files whose
    field equals the value, or is among the values of the tuple, in the
    finder's order. *)
Theorem find_datasets_single_constraint
  (product_match : string -> option captures) (finder : string -> list string)
  (directory : string) (key : string) (c : constraint) :
  (forall file, In file (finder directory) ->
     exists out, parse_datasetname product_match file false = Ok (Some out)) ->
  In key metadata_keys ->
  find_datasets product_match finder directory [(key, c)]
  = Ok (filter (selects product_match key c) (finder directory)).
Proof.
  intros H Hkey. unfold find_datasets.
  assert (G : forall files acc,
             (forall file, In file files ->
                exists out,
                  parse_datasetname product_match file false = Ok (Some out)) ->
             for_each
               (fun selection file =>
                  meta <- parse_datasetname product_match file false ;;
                  matched <- for_each (check_constraint meta) [(key, c)] true ;;
                  Ok (if matched : bool then selection ++ [file] else selection))
               files acc
             = Ok (acc ++ filter (selects product_match key c) files)).
  { induction files as [|f files IH]; intros acc Hf.
    - simpl. now rewrite app_nil_r.
    - destruct (Hf f (or_introl eq_refl)) as [out Eo].
      cbn [for_each filter]. unfold selects at 1. rewrite Eo.
      destruct (parse_datasetname_form product_match f false out Eo)
        as (m & steps & st & _ & _ & ->).
      destruct (metadata_get m steps st key Hkey) as [v Ev].
      cbn [bind check_constraint fst snd]. rewrite Ev. cbn [bind].
      replace (match c with
               | Exactly v0 => Ok (value_eqb v v0)
               | AnyOf vs => Ok (existsb (value_eqb v) vs)
               end) with (@Ok bool (meets v c)) by (destruct c; reflexivity).
      cbn [bind]. rewrite IH by (intros; apply Hf; now right).
      destruct (meets v c); [now rewrite <- app_assoc | reflexivity]. }
  exact (G (finder directory) [] H).
Qed.

Lemma find_datasets_single_constraint_witness :
  find_datasets documented_match (fun _ => [documented_name; documented_name])
    "dir" [("sensor"%string, AnyOf [VStr "S1A"; VStr "S1B"])]
  = Ok (filter (selects documented_match "sensor"
                  (AnyOf [VStr "S1A"; VStr "S1B"]))
          [documented_name; documented_name]).
Proof.
  apply (find_datasets_single_constraint documented_match
           (fun _ => [documented_name; documented_name]) "dir"%string
           "sensor"%string (AnyOf [VStr "S1A"; VStr "S1B"])).
  - intros file [<-|[<-|[]]]; eexists; reflexivity.
  - simpl. tauto.
Defined.

(** X19: a tuple of one value constrains like the value itself, wherever
    it stands among the keyword arguments. *)
Theorem find_datasets_tuple_of_one
  (product_match : string -> option captures) (finder : string -> list string)
  (directory : string) (front back : list (string * constraint))
  (key : string) (v : value) :
  find_datasets product_match finder directory
    (front ++ (key, AnyOf [v]) :: back)
  = find_datasets product_match finder directory
      (front ++ (key, Exactly v) :: back).
Proof.
  unfold find_datasets. apply for_each_ext. intros selection file.
  destruct (parse_datasetname product_match file false) as [meta|e];
    [|reflexivity].
  cbn [bind]. rewrite !for_each_app. cbn [for_each].
  assert (E : forall b, check_constraint meta b (key, AnyOf [v])
                        = check_constraint meta b (key, Exactly v)).
  { intros b. unfold check_constraint. destruct meta as [d|]; [|reflexivity].
    cbn [fst snd]. destruct (get d key); [|reflexivity].
    cbn [bind existsb]. now rewrite orb_false_r. }
  destruct (for_each (check_constraint meta) front true) as [b|e];
    [|reflexivity].
  cbn [bind]. now rewrite E.
Qed.

Import Re Datetime Stamp CalendarFacts RunFacts CalendarOrder TokenOrder.

Section SpanFacts.

Context {A : Type}.
Variable function : A -> Z.
Variable time : Z.


Lemma sorted_same_time (l : list A) :
  (forall x y, In x l -> In y l -> function x = function y) ->
  sorted l function = l.
Proof.
  induction l as [|x l IH]; intros H; [reflexivity|].
  simpl. fold (sorted l function).
  rewrite IH by (intros; apply H; simpl; auto).
  destruct l as [|y l]; [reflexivity|]. simpl.
  rewrite (H y x) by (simpl; auto). now rewrite Z.ltb_irrefl.
Qed.

Lemma regroup_same_time (l : list A) :
  (forall x y, In x l -> In y l -> function x = function y) ->
  regroup function time l = map (fun x => [x]) l.
Proof.
  induction l as [|x l IH]; intros H; [reflexivity|].
  destruct l as [|y l]; [reflexivity|].
  change (regroup function time (x :: y :: l))
    with (match regroup function time (y :: l) with
          | g :: gs => if near function time y x then (x :: g) :: gs
                       else [x] :: g :: gs
          | [] => [[x]]
          end).
  rewrite IH by (intros; apply H; simpl; auto).
  unfold near. rewrite (H y x) by (simpl; auto).
  replace (function x - function x) with 0 by lia. reflexivity.
Qed.

End SpanFacts.

(** X20: whatever the file name, a value that [seconds] returns lies
    between the offsets of 0001-01-01T00:00:00 and 9999-12-31T23:59:59. *)
Theorem seconds_range (filename : string) (z : Z) :
  seconds filename = Ok z -> -59926608000 <= z <= 255611289599.
Proof.
  rewrite seconds_by_leftmost_run.
  destruct (leftmost_run token_class 15 filename) as [token|]; [|discriminate].
  destruct (decode token) as [dt|] eqn:D; [|discriminate].
  intros H. inversion H; subst z. clear H.
  pose proof (decode_valid token dt D) as Hv.
  pose proof (valid_fields dt Hv) as Hf.
  split.
  - change (-59926608000)
      with (Calendar.seconds_since_epoch (mkDatetime 1 1 1 0 0 0)).
    destruct (earlier_or_equal dt (mkDatetime 1 1 1 0 0 0)) as [E|[->|E]].
    + exfalso. unfold earlier in E.
      cbn [lex_lt year month day hour minute second] in E. lia.
    + lia.
    + pose proof (seconds_since_epoch_earlier (mkDatetime 1 1 1 0 0 0) dt
                    eq_refl Hv E). lia.
  - change 255611289599
      with (Calendar.seconds_since_epoch (mkDatetime 9999 12 31 23 59 59)).
    destruct (earlier_or_equal dt (mkDatetime 9999 12 31 23 59 59))
      as [E|[->|E]].
    + pose proof (seconds_since_epoch_earlier dt
                    (mkDatetime 9999 12 31 23 59 59) Hv eq_refl E). lia.
    + lia.
    + exfalso. unfold earlier in E.
      cbn [lex_lt year month day hour minute second] in E.
      pose proof (month_length_bounds (year dt) (month dt)). lia.
Qed.

Lemma seconds_range_witness :
  -59926608000 <= 3634911017 <= 255611289599.
Proof.
  apply (seconds_range documented_name 3634911017). reflexivity.
Defined.

(** X21: items that all carry one time value are never grouped: each
    comes back as a bare item, in input order. *)
Theorem groupbyTime_same_time {A : Type} (images : list A)
  (function : A -> Z) (time : Z) :
  images <> [] ->
  (forall x y, In x images -> In y images -> function x = function y) ->
  groupbyTime images function time = Ok (map Single images).
Proof.
  intros Hne H. rewrite (groupbyTime_regroup function time images Hne).
  rewrite (sorted_same_time function images H).
  rewrite (regroup_same_time function time images H). now rewrite map_map.
Qed.

Lemma groupbyTime_same_time_witness :
  groupbyTime ["b"; "a"; "c"]%string (fun _ => 7) 60
  = Ok [Single "b"; Single "a"; Single "c"]%string.
Proof.
  apply (groupbyTime_same_time ["b"; "a"; "c"]%string (fun _ => 7) 60).
  - discriminate.
  - reflexivity.
Defined.



